(** * Monitor-Purchases-Webhook: the checkout-message parser

    A shallow embedding of [parser.ts] (classifier, field-name resolver,
    text and embed extraction, merge and record building) and the
    properties of it that the specification states.

    Conventions of the embedding.

    - A JavaScript string is a sequence of UTF-16 code units.  A [string]
      here is a sequence of code units in the range U+0000..U+00FF (one
      [ascii] per code unit, ISO 8859-1), on which [toLowerCase], [trim]
      and the regular expressions of the parser act unit by unit.  Input
      with a code unit above U+00FF is outside the embedding.
    - A JavaScript number is a binary64.  A [number] is written as a
      decimal: the decimal that [parseFloat] read when it has at most 15
      significant digits (it then identifies its binary64), and otherwise
      the exact value of the binary64 that the decimal or the integer read
      rounds to, or [Infinity] when it overflows ([numberOfDecimal],
      [numberOfInteger]); the sign of a zero is not kept.  An item index is
      used as a [Map] key and as a sort key, so it is kept as the integer
      value of the binary64, with the rounding written out ([toDouble]).
    - A JavaScript [Map] keeps its entries in insertion order and the parser
      iterates over them, so a [Map] is an association list in insertion
      order with unique keys ([JsMap]). *)

From Stdlib Require Import String Ascii List ZArith NArith Bool Lia.
From Stdlib Require Import Sorting.Sorted.
From Stdlib Require Import DecimalString DecimalNat.
Import ListNotations.

Local Open Scope string_scope.
Local Open Scope Z_scope.

(** ** Code units and character classes *)

Definition code (c : ascii) : N := N_of_ascii c.

Definition inRange (lo hi : N) (c : ascii) : bool :=
  (lo <=? code c)%N && (code c <=? hi)%N.

Definition isChar (n : N) (c : ascii) : bool := (code c =? n)%N.

(** [[a-z]], [[A-Z]] and [\d]. *)
Definition isLower : ascii -> bool := inRange 97 122.
Definition isUpper : ascii -> bool := inRange 65 90.
Definition isDigit : ascii -> bool := inRange 48 57.

(** [\s], which is also what [trim] removes: TAB, LF, VT, FF, CR, SPACE
    and NO-BREAK SPACE (the other white space of ECMAScript lies above
    U+00FF). *)
Definition isSpace (c : ascii) : bool :=
  inRange 9 13 c || isChar 32 c || isChar 160 c.

(** The line terminators LF and CR, which [.] does not match and at which
    [^] and [$] match under the [m] flag. *)
Definition isLineTerminator (c : ascii) : bool := isChar 10 c || isChar 13 c.

Definition anyChar (_ : ascii) : bool := true.
Definition notLineTerminator (c : ascii) : bool := negb (isLineTerminator c).

(** [String.prototype.toLowerCase] on one code unit: A-Z, and the capital
    letters U+00C0..U+00DE other than the multiplication sign U+00D7. *)
Definition lowerChar (c : ascii) : ascii :=
  if isUpper c || (inRange 192 222 c && negb (isChar 215 c))
  then ascii_of_N (code c + 32) else c.

(** A literal letter under the [i] flag: the letter in either case. *)
Definition ci (l : ascii) (c : ascii) : bool :=
  (isUpper c || isLower c) && Ascii.eqb (lowerChar c) (lowerChar l).

Definition LF : string := String (ascii_of_N 10) "".

(** ** String primitives *)

Fixpoint toLowerCase (s : string) : string :=
  match s with
  | "" => ""
  | String c s' => String (lowerChar c) (toLowerCase s')
  end.

Fixpoint trimStart (s : string) : string :=
  match s with
  | String c s' => if isSpace c then trimStart s' else s
  | "" => ""
  end.

Fixpoint trimEnd (s : string) : string :=
  match s with
  | String c s' =>
      match trimEnd s' with
      | "" => if isSpace c then "" else String c ""
      | t => String c t
      end
  | "" => ""
  end.

Definition trim (s : string) : string := trimEnd (trimStart s).

(** [hay.includes(needle)]. *)
Fixpoint includes (hay needle : string) : bool :=
  String.prefix needle hay ||
  match hay with
  | String _ hay' => includes hay' needle
  | "" => false
  end.

(** [parts.join(sep)]. *)
Fixpoint join (sep : string) (parts : list string) : string :=
  match parts with
  | [] => ""
  | [p] => p
  | p :: ps => p ++ sep ++ join sep ps
  end.

(** [s.split('\n')]: [cur] is the piece being read, reversed. *)
Fixpoint split_go (s : string) (cur : list ascii) : list string :=
  match s with
  | "" => [string_of_list_ascii (rev cur)]
  | String c s' =>
      if isChar 10 c then string_of_list_ascii (rev cur) :: split_go s' []
      else split_go s' (c :: cur)
  end.

Definition splitLines (s : string) : list string := split_go s [].

Fixpoint takeWhile (p : ascii -> bool) (s : string) : string :=
  match s with
  | String c s' => if p c then String c (takeWhile p s') else ""
  | "" => ""
  end.

Fixpoint dropWhile (p : ascii -> bool) (s : string) : string :=
  match s with
  | String c s' => if p c then dropWhile p s' else s
  | "" => ""
  end.

(** The truthiness of a string: only the empty string is falsy. *)
Definition truthy (s : string) : bool := negb (String.eqb s "").

(** [v || d] for [v : string | undefined]. *)
Definition orElse (v : option string) (d : string) : string :=
  match v with
  | Some s => if truthy s then s else d
  | None => d
  end.

(** [s || null]. *)
Definition orNull (s : string) : option string :=
  if truthy s then Some s else None.

(** ** Regular expressions

    The parser's patterns quantify single character classes only, so a
    repetition is a node of its own and the backtracking matcher recurses
    on the pattern and, inside a repetition, on the remaining input. *)

Inductive regex : Type :=
| Eps
| Chr (p : ascii -> bool)
| Star (greedy : bool) (p : ascii -> bool)
| Seq (r1 r2 : regex)
| Alt (r1 r2 : regex)
| Grp (n : nat) (r : regex)
| Bol (multiline : bool)
| Eol (multiline : bool).

Declare Scope regex_scope.
Delimit Scope regex_scope with re.
Bind Scope regex_scope with regex.
Infix ";;" := Seq (at level 61, right associativity) : regex_scope.
Infix "<|>" := Alt (at level 62, right associativity) : regex_scope.

(** [p+], [p+?], [p?] and a literal word. *)
Definition Plus (greedy : bool) (p : ascii -> bool) : regex :=
  (Chr p ;; Star greedy p)%re.
Definition Opt (p : ascii -> bool) : regex := (Chr p <|> Eps)%re.
Definition Lit (c : ascii) : regex := Chr (Ascii.eqb c).

Fixpoint Word (mk : ascii -> ascii -> bool) (w : string) : regex :=
  match w with
  | "" => Eps
  | String c w' => (Chr (mk c) ;; Word mk w')%re
  end.

(** A position of the matcher: the code unit before it ([None] at the start
    of the input), the input from it on, and the groups captured so far. *)
Record mstate : Type := MState {
  before : option ascii;
  rest : string;
  caps : list (nat * string)
}.

Definition atBol (multiline : bool) (st : mstate) : bool :=
  match before st with
  | None => true
  | Some c => multiline && isLineTerminator c
  end.

Definition atEol (multiline : bool) (st : mstate) : bool :=
  match rest st with
  | "" => true
  | String c _ => multiline && isLineTerminator c
  end.

Definition first_of {A} (x y : option A) : option A :=
  match x with Some _ => x | None => y end.

Section Matcher.
Variable k : mstate -> option mstate.

Fixpoint star_greedy (p : ascii -> bool) (bef : option ascii)
    (cs : list (nat * string)) (s : string) : option mstate :=
  match s with
  | String c s' =>
      if p c
      then match star_greedy p (Some c) cs s' with
           | Some r => Some r
           | None => k (MState bef s cs)
           end
      else k (MState bef s cs)
  | "" => k (MState bef s cs)
  end.

Fixpoint star_lazy (p : ascii -> bool) (bef : option ascii)
    (cs : list (nat * string)) (s : string) : option mstate :=
  match k (MState bef s cs) with
  | Some r => Some r
  | None =>
      match s with
      | String c s' => if p c then star_lazy p (Some c) cs s' else None
      | "" => None
      end
  end.
End Matcher.

(** The text between two positions of one input. *)
Definition consumed (st st' : mstate) : string :=
  substring 0 (String.length (rest st) - String.length (rest st')) (rest st).

Fixpoint run (r : regex) (k : mstate -> option mstate) (st : mstate)
    : option mstate :=
  match r with
  | Eps => k st
  | Chr p =>
      match rest st with
      | String c s' => if p c then k (MState (Some c) s' (caps st)) else None
      | "" => None
      end
  | Star true p => star_greedy k p (before st) (caps st) (rest st)
  | Star false p => star_lazy k p (before st) (caps st) (rest st)
  | Seq r1 r2 => run r1 (run r2 k) st
  | Alt r1 r2 => first_of (run r1 k st) (run r2 k st)
  | Grp n r1 =>
      run r1 (fun st' =>
                k (MState (before st') (rest st')
                          ((n, consumed st st') :: caps st'))) st
  | Bol m => if atBol m st then k st else None
  | Eol m => if atEol m st then k st else None
  end.

(** A match at one position: the position after it, with its groups. *)
Definition matchAt (r : regex) (bef : option ascii) (s : string)
    : option mstate :=
  run r Some (MState bef s []).

(** Group [n] of a match; a group that took no part in it is [""]. *)
Fixpoint group (n : nat) (cs : list (nat * string)) : string :=
  match cs with
  | [] => ""
  | (m, v) :: cs' => if Nat.eqb m n then v else group n cs'
  end.

(** [s.match(r)] for a pattern without the [g] flag: the groups of the
    leftmost match. *)
Fixpoint search (r : regex) (bef : option ascii) (s : string)
    : option (list (nat * string)) :=
  match matchAt r bef s with
  | Some st => Some (caps st)
  | None =>
      match s with
      | String c s' => search r (Some c) s'
      | "" => None
      end
  end.

Definition regexMatch (r : regex) (s : string) : option (list (nat * string)) :=
  search r None s.

(** The scan behind [replace] and the [exec] loop: [skip] code units of
    the last match are still to be passed over; [emit] is what a match
    contributes and [keep] what a code unit outside any match does. *)
Section Scan.
Context {A : Type}.
Variable r : regex.
Variable emit : list (nat * string) -> list A.
Variable keep : ascii -> list A.

Fixpoint scan (bef : option ascii) (s : string) (skip : nat) : list A :=
  match skip with
  | S n =>
      match s with
      | String c s' => scan (Some c) s' n
      | "" => []
      end
  | O =>
      match matchAt r bef s with
      | Some st =>
          let len := (String.length s - String.length (rest st))%nat in
          (emit (caps st) ++
           match s with
           | String c s' =>
               match len with
               | O => keep c ++ scan (Some c) s' O
               | S n => scan (Some c) s' n
               end
           | "" => []
           end)%list
      | None =>
          match s with
          | String c s' => (keep c ++ scan (Some c) s' O)%list
          | "" => []
          end
      end
  end.
End Scan.

(** [s.replace(r, to)] for a pattern with the [g] flag, [to] computed from
    the groups of each match. *)
Definition replaceAll (r : regex) (to : list (nat * string) -> string)
    (s : string) : string :=
  string_of_list_ascii
    (scan r (fun cs => list_ascii_of_string (to cs)) (fun c => [c]) None s O).

(** [s.replace(r, to)] for a pattern without the [g] flag: the leftmost
    match only. *)
Fixpoint replaceFirst_go (r : regex) (to : list (nat * string) -> string)
    (bef : option ascii) (s : string) : string :=
  match matchAt r bef s with
  | Some st => to (caps st) ++ rest st
  | None =>
      match s with
      | String c s' => String c (replaceFirst_go r to (Some c) s')
      | "" => ""
      end
  end.

Definition replaceFirst (r : regex) (to : list (nat * string) -> string)
    (s : string) : string :=
  replaceFirst_go r to None s.

(** The matches that a [while ((m = r.exec(s)) !== null)] loop visits, [r]
    with the [g] flag: each search starts where the last match ended.  (The
    loop does not end on an empty match; the patterns here have none.) *)
Definition execAll (r : regex) (s : string) : list (list (nat * string)) :=
  scan r (fun cs => [cs]) (fun _ => []) None s O.

(** ** Numbers *)

(** The value of a JavaScript number as the parser obtains it: [Dec m e] is
    the number that the decimal [m * 10^e] denotes, the binary64 nearest to
    it.  The numbers that [parseInt] and [parseFloat] return are written by
    [numberOfInteger] and [numberOfDecimal] below. *)
Inductive number : Type :=
| NaN
| Infinity (negative : bool)
| Dec (m e : Z).

Definition isNaN (x : number) : bool :=
  match x with NaN => true | _ => false end.

Definition digitOf (c : ascii) : Z := Z.of_N (code c) - 48.

Fixpoint digits_go (acc : Z) (s : string) : Z :=
  match s with
  | String c s' => digits_go (10 * acc + digitOf c) s'
  | "" => acc
  end.

(** The integer that a run of decimal digits denotes. *)
Definition digitsValue (s : string) : Z := digits_go 0 s.

(** An optional sign: whether it is [-], and the input after it. *)
Definition readSign (s : string) : bool * string :=
  match s with
  | String c s' =>
      if isChar 45 c then (true, s')
      else if isChar 43 c then (false, s')
      else (false, s)
  | "" => (false, s)
  end.

Definition signed (negative : bool) (z : Z) : Z := if negative then - z else z.

(** The binary64 nearest to an integer [n >= -1], ties to even, as an
    integer; [2^1024] stands for [Infinity]. *)
Definition toDouble (n : Z) : Z :=
  if n <? 2 ^ 53 then n
  else
    let e := Z.log2 n - 52 in
    let q := Z.shiftr n e in
    let r := n - Z.shiftl q e in
    let half := 2 ^ (e - 1) in
    let up := (half <? r) || ((half =? r) && Z.odd q) in
    let v := Z.shiftl (if up then q + 1 else q) e in
    if 2 ^ 1024 <=? v then 2 ^ 1024 else v.

(** The number whose mathematical value is the integer [z]: the binary64
    nearest to [z], which is [z] itself below [2^53] in magnitude, and
    [Infinity] from [2^1024 - 2^970] on. *)
Definition numberOfInteger (z : Z) : number :=
  let v := toDouble (Z.abs z) in
  if 2 ^ 1024 <=? v then Infinity (z <? 0) else Dec (signed (z <? 0) v) 0.

(** [2^l <= p / q], for [q > 0]. *)
Definition atLeastPow2 (p q l : Z) : bool :=
  if 0 <=? l then q * 2 ^ l <=? p else q <=? p * 2 ^ (- l).

(** The integer part of the binary logarithm of [p / q], for [p, q > 0]. *)
Definition floorLog2 (p q : Z) : Z :=
  let l := Z.log2 p - Z.log2 q in
  if atLeastPow2 p q l then l else l - 1.

(** The integer nearest to [n / d], ties to even, for [n >= 0], [d > 0]. *)
Definition roundHalfEven (n d : Z) : Z :=
  let q := n / d in
  let r := n mod d in
  if (d <? 2 * r) || ((d =? 2 * r) && Z.odd q) then q + 1 else q.

(** [m * 10^e] without the trailing zeros of [m], as long as [e < 0]. *)
Fixpoint stripZeros (fuel : nat) (m e : Z) : Z * Z :=
  match fuel with
  | S fuel' =>
      if (e <? 0) && (m mod 10 =? 0)
      then stripZeros fuel' (m / 10) (e + 1)
      else (m, e)
  | O => (m, e)
  end.

(** The binary64 nearest to [p / q] ([p >= 0], [q > 0]), ties to even, with
    the sign given: a significand [mant] of at most 53 bits at the binary
    exponent [ex >= -1074] (below [2^-1022] the spacing stays [2^-1074]).
    The result is [Infinity] on overflow and otherwise the exact value
    [mant * 2^ex] of the binary64, written as a decimal
    ([mant * 2^ex = mant * 5^-ex * 10^ex] when [ex < 0]). *)
Definition binary64 (negative : bool) (p q : Z) : number :=
  let ex := Z.max (floorLog2 p q - 52) (-1074) in
  let mant := if 0 <=? ex then roundHalfEven p (q * 2 ^ ex)
              else roundHalfEven (p * 2 ^ (- ex)) q in
  if mant =? 0 then Dec 0 0
  else if 0 <=? ex
  then if 2 ^ 1024 <=? mant * 2 ^ ex then Infinity negative
       else Dec (signed negative (mant * 2 ^ ex)) 0
  else let '(m, e) := stripZeros (Z.to_nat (- ex)) (mant * 5 ^ (- ex)) ex in
       Dec (signed negative m) e.

(** The number whose decimal writing is [m * 10^e].  A decimal of at most
    15 significant digits, without a positive exponent and not below
    [10^-307], is kept as it is written: it is below [10^15], so it is the
    exact value when it is an integer, and two such decimals of different
    value are different binary64s.  Any other decimal is rounded to its
    binary64 ([binary64]), exactly, as the engine of Node.js does. *)
Definition numberOfDecimal (m e : Z) : number :=
  if (Z.abs m <? 10 ^ 15) && (-307 <=? e) && (e <=? 0) then Dec m e
  else if 0 <=? e then binary64 (m <? 0) (Z.abs m * 10 ^ e) 1
  else binary64 (m <? 0) (Z.abs m) (10 ^ (- e)).

(** [parseInt(s, 10)] before the conversion to a number: leading white
    space, an optional sign, then the longest run of digits; [None] is
    [NaN]. *)
Definition parseIntZ (s : string) : option Z :=
  let '(negative, s1) := readSign (trimStart s) in
  let ds := takeWhile isDigit s1 in
  if truthy ds then Some (signed negative (digitsValue ds)) else None.

(** [parseInt(s, 10)]: the integer read, as a number. *)
Definition parseInt (s : string) : number :=
  match parseIntZ s with
  | Some z => numberOfInteger z
  | None => NaN
  end.

(** The exponent part [e], [e+] or [e-] and digits at the head of [s]; [0]
    when there is none. *)
Definition readExponent (s : string) : Z :=
  match s with
  | String c s' =>
      if ci "e" c
      then let '(negative, s2) := readSign s' in
           let ds := takeWhile isDigit s2 in
           if truthy ds then signed negative (digitsValue ds) else 0
      else 0
  | "" => 0
  end.

(** [parseFloat(s)]: leading white space, then the longest prefix that is
    a StrDecimalLiteral (sign, [Infinity] or digits with an optional
    fraction and exponent); [NaN] when there is none.  The decimal read is
    returned as a number. *)
Definition parseFloat (s : string) : number :=
  let '(negative, s1) := readSign (trimStart s) in
  if String.prefix "Infinity" s1 then Infinity negative
  else
    let ip := takeWhile isDigit s1 in
    let s2 := dropWhile isDigit s1 in
    let '(fp, s3) :=
      match s2 with
      | String c s' =>
          if isChar 46 c then (takeWhile isDigit s', dropWhile isDigit s')
          else ("", s2)
      | "" => ("", s2)
      end in
    if truthy ip || truthy fp
    then numberOfDecimal (signed negative (digitsValue (ip ++ fp)))
                         (readExponent s3 - Z.of_nat (String.length fp))
    else NaN.

(** ** Maps and sets in insertion order *)

Module JsMap.
Section Defs.
Context {K V : Type}.
Variable eqb : K -> K -> bool.

(** [m.get(k)]; [None] is [undefined]. *)
Fixpoint get (k : K) (m : list (K * V)) : option V :=
  match m with
  | [] => None
  | (k', v) :: m' => if eqb k k' then Some v else get k m'
  end.

(** [m.has(k)]. *)
Definition has (k : K) (m : list (K * V)) : bool :=
  match get k m with Some _ => true | None => false end.

(** [m.set(k, v)]: a key that is present keeps its place. *)
Fixpoint set (k : K) (v : V) (m : list (K * V)) : list (K * V) :=
  match m with
  | [] => [(k, v)]
  | (k', v') :: m' =>
      if eqb k k' then (k, v) :: m' else (k', v') :: set k v m'
  end.

(** [new Map(entries)]. *)
Definition ofEntries (entries : list (K * V)) : list (K * V) :=
  fold_left (fun m e => set (fst e) (snd e) m) entries [].

(** [[...m.keys()]]. *)
Definition keys (m : list (K * V)) : list K := map fst m.

(** [new Set(xs)], as the list of its elements in insertion order. *)
Definition setOf (xs : list K) : list K :=
  fold_left (fun s x => if existsb (eqb x) s then s else (s ++ [x])%list) xs [].
End Defs.
End JsMap.

(** [Map<string, string>] and [Map<number, Map<string, string>>]. *)
Definition FieldMap : Type := list (string * string).
Definition ItemMap : Type := list (Z * FieldMap).

Definition fget : string -> FieldMap -> option string := JsMap.get String.eqb.
Definition fhas : string -> FieldMap -> bool := JsMap.has String.eqb.
Definition fset : string -> string -> FieldMap -> FieldMap :=
  JsMap.set String.eqb.
Definition iget : Z -> ItemMap -> option FieldMap := JsMap.get Z.eqb.
Definition ihas : Z -> ItemMap -> bool := JsMap.has Z.eqb.
Definition iset : Z -> FieldMap -> ItemMap -> ItemMap := JsMap.set Z.eqb.

(** [m || new Map()] for [m : Map | undefined]. *)
Definition orEmpty (m : option FieldMap) : FieldMap :=
  match m with Some f => f | None => [] end.

(** [arr.sort(cmp)], which is stable: each element goes before the first
    one of the sorted rest that does not compare below it. *)
Section Sort.
Context {A : Type}.
Variable cmp : A -> A -> Z.

Fixpoint insertSorted (x : A) (l : list A) : list A :=
  match l with
  | [] => [x]
  | y :: l' => if cmp y x <? 0 then y :: insertSorted x l' else x :: l
  end.

Definition sortBy (l : list A) : list A := fold_right insertSorted [] l.
End Sort.

(** ** The parser: data *)

Record ParsedWebhookMessage : Type := {
  product : string;
  price : number;
  quantity : number;
  site : string;
  sku : option string;
  mode : option string;
  fulfillment_type : option string;
  profile : option string;
  order_id : option string;
  order_email : option string;
  order_link : option string;
  account : option string;
  raw_message_text : string
}.

Record EmbedField : Type := { name : string; value : string }.

Record Author : Type := { author_name : option string }.

Record Embed : Type := {
  title : option string;
  description : option string;
  fields : option (list EmbedField);
  author : option Author
}.

(** The own properties of the object [FIELD_MAPPINGS]. *)
Definition FIELD_MAPPINGS : list (string * string) :=
  [ ("site", "site");
    ("product", "product");
    ("price", "price");
    ("qty", "quantity");
    ("quantity", "quantity");
    ("sku", "sku");
    ("mode", "mode");
    ("fulfillment type", "fulfillment_type");
    ("fulfillment", "fulfillment_type");
    ("profile", "profile");
    ("order id", "order_id");
    ("order number", "order_id");
    ("order #", "order_id");
    ("order email", "order_email");
    ("email", "order_email");
    ("order link", "order_link");
    ("link", "order_link");
    ("account", "account");
    ("buy now atc?", "mode");
    ("buy now", "mode") ].

(** [FIELD_MAPPINGS[label]] when it is one of the strings above. *)
Definition fieldMapping (label : string) : option string :=
  JsMap.get String.eqb label FIELD_MAPPINGS.

(** [FIELD_MAPPINGS[label] !== undefined].  [FIELD_MAPPINGS] is an object
    literal, so the lookup also finds the members of [Object.prototype];
    the labels arrive in lower case, and the members with a name in lower
    case are [constructor] and [__proto__]. *)
Definition isMapped (label : string) : bool :=
  match fieldMapping label with
  | Some _ => true
  | None => String.eqb label "constructor" || String.eqb label "__proto__"
  end.

Definition PER_ITEM_FIELDS : list string :=
  ["product"; "price"; "qty"; "quantity"; "sku"].

Definition SHARED_FIELDS : list string :=
  ["site"; "mode"; "fulfillment type"; "fulfillment"; "profile";
   "order id"; "order number"; "order #"; "order email"; "email";
   "order link"; "link"; "account"].

(** [set.has(x)] for a set of strings. *)
Definition setHas (xs : list string) (x : string) : bool :=
  existsb (String.eqb x) xs.

(** ** The classifier *)

Definition isSuccessfulCheckout (embed : option Embed) (rawText : string)
    : bool :=
  match embed, truthy rawText with
  | None, false => false
  | _, _ =>
      let textToCheck :=
        toLowerCase
          (join " "
             [ orElse (match embed with Some e => title e | None => None end) "";
               orElse (match embed with
                       | Some e => description e
                       | None => None
                       end) "";
               orElse (match embed with
                       | Some e =>
                           match author e with
                           | Some a => author_name a
                           | None => None
                           end
                       | None => None
                       end) "";
               rawText ]) in
      includes textToCheck "successful checkout" ||
      includes textToCheck "checkout success" ||
      includes textToCheck "successfully checked out"
  end.

(** ** The field-name resolver *)

Record FieldName : Type := { baseName : string; index : Z }.

(** [/^([a-z\s]+?)\s*\((\d+)\)$/] *)
Definition numberedPattern : regex :=
  (Bol false ;;
   Grp 1 (Plus false (fun c => isLower c || isSpace c)) ;;
   Star true isSpace ;;
   Lit "(" ;; Grp 2 (Plus true isDigit) ;; Lit ")" ;;
   Eol false)%re.

(** [parseInt(digits, 10) - 1] as the binary64 it is; [digits] is group 2
    of [numberedPattern], a run of digits, so [parseInt] is not [NaN]. *)
Definition zeroBased (digits : string) : Z :=
  match parseIntZ digits with
  | Some n => toDouble (toDouble n - 1)
  | None => 0
  end.

Definition parseFieldName (fieldName : string) : option FieldName :=
  let lower := trim (toLowerCase fieldName) in
  let direct :=
    if isMapped lower then Some {| baseName := lower; index := 0 |}
    else None in
  match regexMatch numberedPattern lower with
  | Some numberedMatch =>
      let baseName := trim (group 1 numberedMatch) in
      let index := zeroBased (group 2 numberedMatch) in
      if isMapped baseName
      then Some {| baseName := baseName; index := index |}
      else direct
  | None => direct
  end.

(** ** Extraction from the raw text *)

Record Fields : Type := { shared : FieldMap; items : ItemMap }.

Definition noFields : Fields := {| shared := []; items := [] |}.

(** [if (!items.has(idx)) items.set(idx, new Map())]. *)
Definition ensureItem (idx : Z) (its : ItemMap) : ItemMap :=
  if ihas idx its then its else iset idx [] its.

(** [items.get(idx)!.set(key, v)]: the inner map is updated in place. *)
Definition setItemField (idx : Z) (key v : string) (its : ItemMap) : ItemMap :=
  iset idx (fset key v (orEmpty (iget idx its))) its.

(** The body of the line-pair loop once [nextLine] is known to be a value
    (lines 139 to 152).  A label that is mapped only through
    [Object.prototype] is in neither set, and nothing is recorded. *)
Definition recordLinePair (parsed : FieldName) (nextLine : string)
    (acc : Fields) : Fields :=
  match fieldMapping (baseName parsed) with
  | Some mappedName =>
      if setHas PER_ITEM_FIELDS (baseName parsed)
      then {| shared := shared acc;
              items := setItemField (index parsed) mappedName nextLine
                         (ensureItem (index parsed) (items acc)) |}
      else if setHas SHARED_FIELDS (baseName parsed)
      then if fhas mappedName (shared acc) then acc
           else {| shared := fset mappedName nextLine (shared acc);
                   items := items acc |}
      else acc
  | None => acc
  end.

(** The loop over the lines (lines 130 to 157); a label followed by a value
    takes two lines. *)
Fixpoint linePairs (lines : list string) (acc : Fields) : Fields :=
  match lines with
  | [] => acc
  | line :: tl =>
      match parseFieldName line, tl with
      | Some parsed, nextLine :: tl' =>
          match parseFieldName nextLine with
          | None => linePairs tl' (recordLinePair parsed nextLine acc)
          | Some _ => linePairs tl acc
          end
      | _, _ => linePairs tl acc
      end
  end.

(** [/^([A-Za-z][A-Za-z0-9\s#?()]+?):\s*(.+)$/gm] *)
Definition colonPattern : regex :=
  (Bol true ;;
   Grp 1 (Chr (fun c => isUpper c || isLower c) ;;
          Plus false (fun c => isUpper c || isLower c || isDigit c ||
                               isSpace c || isChar 35 c || isChar 63 c ||
                               isChar 40 c || isChar 41 c)) ;;
   Lit ":" ;; Star true isSpace ;;
   Grp 2 (Plus true notLineTerminator) ;;
   Eol true)%re.

(** The body of the [exec] loop (lines 163 to 180). *)
Definition recordColon (acc : Fields) (m : list (nat * string)) : Fields :=
  let fieldName := trim (group 1 m) in
  let value := trim (group 2 m) in
  match parseFieldName fieldName with
  | Some parsed =>
      if truthy value
      then match fieldMapping (baseName parsed) with
           | Some mappedName =>
               if setHas PER_ITEM_FIELDS (baseName parsed)
               then let its := ensureItem (index parsed) (items acc) in
                    {| shared := shared acc;
                       items :=
                         if fhas mappedName (orEmpty (iget (index parsed) its))
                         then its
                         else setItemField (index parsed) mappedName value its |}
               else if setHas SHARED_FIELDS (baseName parsed) &&
                       negb (fhas mappedName (shared acc))
               then {| shared := fset mappedName value (shared acc);
                       items := items acc |}
               else acc
           | None => acc
           end
      else acc
  | None => acc
  end.

Definition extractFieldsFromText (text : string) : Fields :=
  let lines :=
    filter (fun l => (0 <? String.length l)%nat) (map trim (splitLines text)) in
  fold_left recordColon (execAll colonPattern text) (linePairs lines noFields).

(** ** Cleansing of values *)

(** [/^\|{2}(.+?)\|{2}$/s] *)
Definition spoilerPattern : regex :=
  (Bol false ;; Lit "|" ;; Lit "|" ;;
   Grp 1 (Plus false anyChar) ;;
   Lit "|" ;; Lit "|" ;; Eol false)%re.

Definition stripSpoilerTags (value : string) : string :=
  trim (replaceFirst spoilerPattern (group 1) value).

Definition remove (_ : list (nat * string)) : string := "".

(** [/[$£€¥]/g]: DOLLAR SIGN, POUND SIGN U+00A3 and YEN SIGN U+00A5 (EURO
    SIGN is U+20AC, above the code units of the embedding). *)
Definition currencySign : regex :=
  Chr (fun c => isChar 36 c || isChar 163 c || isChar 165 c).

(** [/\s*(USD|EUR|GBP|CAD|AUD)\s*/gi] *)
Definition currencyCode : regex :=
  (Star true isSpace ;;
   Grp 1 (Word ci "USD" <|> Word ci "EUR" <|> Word ci "GBP" <|>
          Word ci "CAD" <|> Word ci "AUD") ;;
   Star true isSpace)%re.

(** The constant [cleaned] of [parsePrice] (lines 197 to 201). *)
Definition cleanPrice (priceStr : string) : string :=
  trim (replaceAll currencyCode remove
          (replaceAll (Lit ",") remove
             (replaceAll currencySign remove (stripSpoilerTags priceStr)))).

Definition parsePrice (priceStr : string) : number :=
  let parsed := parseFloat (cleanPrice priceStr) in
  if isNaN parsed then Dec 0 0 else parsed.

(** [/qty:?\s*/gi] *)
Definition qtyPattern : regex :=
  (Word ci "qty" ;; Opt (Ascii.eqb ":") ;; Star true isSpace)%re.

(** The constant [cleaned] of [parseQuantity] (line 211). *)
Definition cleanQuantity (qtyStr : string) : string :=
  trim (replaceAll qtyPattern remove
          (replaceAll (Chr (ci "x")) remove qtyStr)).

Definition parseQuantity (qtyStr : string) : number :=
  let parsed := parseInt (cleanQuantity qtyStr) in
  if isNaN parsed then Dec 1 0 else parsed.

(** ** The parser: embed fields, merge and records *)

(** The body of the loop over [embed.fields] (lines 227 to 240). *)
Definition recordEmbedField (acc : Fields) (field : EmbedField) : Fields :=
  match parseFieldName (name field) with
  | Some parsed =>
      match fieldMapping (baseName parsed) with
      | Some mappedName =>
          let value := trim (value field) in
          if setHas PER_ITEM_FIELDS (baseName parsed)
          then {| shared := shared acc;
                  items := setItemField (index parsed) mappedName value
                             (ensureItem (index parsed) (items acc)) |}
          else if setHas SHARED_FIELDS (baseName parsed)
          then {| shared := fset mappedName value (shared acc);
                  items := items acc |}
          else acc
      | None => acc
      end
  | None => acc
  end.

(** [embedShared] and [embedItems] after the loop (lines 222 to 242). *)
Definition embedFields (embed : option Embed) : Fields :=
  match embed with
  | Some e =>
      match fields e with
      | Some fs => fold_left recordEmbedField fs noFields
      | None => noFields
      end
  | None => noFields
  end.

(** [new Map([...textShared, ...embedShared])] (line 248). *)
Definition mergedShared (embed : option Embed) (rawText : string) : FieldMap :=
  JsMap.ofEntries String.eqb
    (shared (extractFieldsFromText rawText) ++ shared (embedFields embed)).

(** [new Map([...(textItems.get(idx) || new Map()),
    ...(embedItems.get(idx) || new Map())])] (lines 255 to 258). *)
Definition mergedAt (textItems embedItems : ItemMap) (idx : Z) : FieldMap :=
  JsMap.ofEntries String.eqb
    (orEmpty (iget idx textItems) ++ orEmpty (iget idx embedItems)).

(** One step of the loop over [allItemIndices] (lines 254 to 260). *)
Definition mergeItem (textItems embedItems : ItemMap) (its : ItemMap)
    (idx : Z) : ItemMap :=
  iset idx (mergedAt textItems embedItems idx) its.

(** [items] before the loop that builds the records (lines 251 to 265). *)
Definition mergedItems (embed : option Embed) (rawText : string) : ItemMap :=
  let embedItems := items (embedFields embed) in
  let textItems := items (extractFieldsFromText rawText) in
  let allItemIndices :=
    JsMap.setOf Z.eqb (JsMap.keys embedItems ++ JsMap.keys textItems) in
  let its := fold_left (mergeItem textItems embedItems) allItemIndices [] in
  match its with
  | [] => iset 0 [] its
  | _ => its
  end.

(** The body of the loop that builds the records (lines 271 to 297); [None]
    is the [continue] of an item without a product or a site. *)
Definition buildPurchase (sharedFields : FieldMap) (rawText : string)
    (itemFields : FieldMap) : option ParsedWebhookMessage :=
  let product := stripSpoilerTags (orElse (fget "product" itemFields) "") in
  let priceStr := orElse (fget "price" itemFields) "0" in
  let qtyStr := orElse (fget "quantity" itemFields) "1" in
  let sku := orNull (stripSpoilerTags (orElse (fget "sku" itemFields) "")) in
  let site := stripSpoilerTags (orElse (fget "site" sharedFields) "") in
  if negb (truthy product) || negb (truthy site) then None
  else
    let optional key :=
      orNull (stripSpoilerTags (orElse (fget key sharedFields) "")) in
    Some {| product := product;
            price := parsePrice priceStr;
            quantity := parseQuantity qtyStr;
            site := site;
            sku := sku;
            mode := optional "mode";
            fulfillment_type := optional "fulfillment_type";
            profile := optional "profile";
            order_id := optional "order_id";
            order_email := optional "order_email";
            order_link := optional "order_link";
            account := optional "account";
            raw_message_text := rawText |}.

(** [purchases.push(...)], or nothing on [continue]. *)
Definition pushPurchase (sharedFields : FieldMap) (rawText : string)
    (purchases : list ParsedWebhookMessage) (entry : Z * FieldMap)
    : list ParsedWebhookMessage :=
  match buildPurchase sharedFields rawText (snd entry) with
  | Some p => purchases ++ [p]
  | None => purchases
  end.

(** [[...items.entries()].sort((a, b) => a[0] - b[0])] *)
Definition sortedEntries (its : ItemMap) : list (Z * FieldMap) :=
  sortBy (fun a b => fst a - fst b) its.

Definition parseWebhookMessage (embed : option Embed) (rawText : string)
    : list ParsedWebhookMessage :=
  let sharedFields := mergedShared embed rawText in
  let its := mergedItems embed rawText in
  fold_left (pushPurchase sharedFields rawText) (sortedEntries its) [].


(** ** Vocabulary of the specification *)

(** A place a value is recorded at: a shared key, or a key of one item. *)
Inductive Slot : Type :=
| SharedSlot (key : string)
| ItemSlot (idx : Z) (key : string).

Definition lookupSlot (s : Slot) (f : Fields) : option string :=
  match s with
  | SharedSlot key => fget key (shared f)
  | ItemSlot idx key => fget key (orEmpty (iget idx (items f)))
  end.

(** The slot that an embed field writes, following the tests of
    [recordEmbedField]; [None] when it writes nothing. *)
Definition slotOf (field : EmbedField) : option Slot :=
  match parseFieldName (name field) with
  | Some parsed =>
      match fieldMapping (baseName parsed) with
      | Some mappedName =>
          if setHas PER_ITEM_FIELDS (baseName parsed)
          then Some (ItemSlot (index parsed) mappedName)
          else if setHas SHARED_FIELDS (baseName parsed)
          then Some (SharedSlot mappedName)
          else None
      | None => None
      end
  | None => None
  end.

(** The two merged maps of [parseWebhookMessage]. *)
Definition merged (embed : option Embed) (rawText : string) : Fields :=
  {| shared := mergedShared embed rawText;
     items := mergedItems embed rawText |}.

(** The canonical keys of the shared fields. *)
Definition sharedKeys : list string :=
  ["site"; "mode"; "fulfillment_type"; "profile"; "order_id"; "order_email";
   "order_link"; "account"].

(** The field of a record that a shared key fills, [null] as [None] (a
    record has no empty [site]). *)
Definition sharedOut (key : string) (r : ParsedWebhookMessage)
    : option string :=
  if String.eqb key "site" then orNull (site r)
  else if String.eqb key "mode" then mode r
  else if String.eqb key "fulfillment_type" then fulfillment_type r
  else if String.eqb key "profile" then profile r
  else if String.eqb key "order_id" then order_id r
  else if String.eqb key "order_email" then order_email r
  else if String.eqb key "order_link" then order_link r
  else if String.eqb key "account" then account r
  else None.

(** What a record shows of a value [v] recorded under a per-item key. *)
Definition itemShows (key v : string) (r : ParsedWebhookMessage) : Prop :=
  if String.eqb key "product" then
    product r = stripSpoilerTags (orElse (Some v) "")
  else if String.eqb key "price" then
    price r = parsePrice (orElse (Some v) "0")
  else if String.eqb key "quantity" then
    quantity r = parseQuantity (orElse (Some v) "1")
  else if String.eqb key "sku" then
    sku r = orNull (stripSpoilerTags (orElse (Some v) ""))
  else True.

(** The shared fields of a record. *)
Definition sharedPart (r : ParsedWebhookMessage) :=
  (site r, mode r, fulfillment_type r, profile r, order_id r, order_email r,
   order_link r, account r, raw_message_text r).

(** The three trigger phrases of [isSuccessfulCheckout]. *)
Definition triggerPhrases : list string :=
  ["successful checkout"; "checkout success"; "successfully checked out"].

(** [s] contains a trigger phrase, case-insensitively. *)
Definition hasTrigger (s : string) : bool :=
  existsb (includes (toLowerCase s)) triggerPhrases.

(** The four parts that [isSuccessfulCheckout] looks at. *)
Definition checkedParts (embed : option Embed) (rawText : string)
    : list string :=
  [ orElse (match embed with Some e => title e | None => None end) "";
    orElse (match embed with Some e => description e | None => None end) "";
    orElse (match embed with
            | Some e =>
                match author e with
                | Some a => author_name a
                | None => None
                end
            | None => None
            end) "";
    rawText ].

(** A number that is not negative. *)
Definition nonNegative (x : number) : bool :=
  match x with
  | NaN => false
  | Infinity negative => negb negative
  | Dec m _ => 0 <=? m
  end.

(** A number that is an integer and at least 1. *)
Definition integerAtLeastOne (x : number) : bool :=
  match x with
  | Dec m e =>
      if 0 <=? e then 1 <=? m
      else (m mod 10 ^ (- e) =? 0) && (10 ^ (- e) <=? m)
  | _ => false
  end.

(** The contribution of one item to the result. *)
Definition recordsOf (sharedFields : FieldMap) (rawText : string)
    (entry : Z * FieldMap) : list ParsedWebhookMessage :=
  match buildPurchase sharedFields rawText (snd entry) with
  | Some p => [p]
  | None => []
  end.

(** The labels of [FIELD_MAPPINGS] that [numberedPattern] can number:
    those made of letters and spaces. *)
Definition numberableLabels : list string :=
  filter (fun l => forallb (fun c => isLower c || isSpace c)
                     (list_ascii_of_string l))
    (map fst FIELD_MAPPINGS).


(** Maps as [JsMap.set] builds them: no key twice, at either level. *)
Definition fieldsWf (f : Fields) : Prop :=
  NoDup (JsMap.keys (shared f)) /\
  NoDup (JsMap.keys (items f)) /\
  forall i m, iget i (items f) = Some m -> NoDup (JsMap.keys m).

(** The canonical keys of the per-item fields. *)
Definition itemKeys : list string := ["product"; "price"; "quantity"; "sku"].

(** The keys under which a set of fields holds values, at either level. *)
Definition keysWithin (f : Fields) : Prop :=
  (forall k v, fget k (shared f) = Some v -> In k sharedKeys) /\
  (forall i k v, fget k (orEmpty (iget i (items f))) = Some v ->
                 In k itemKeys).

(** The canonical key and the item index that a label resolves to, through
    [parseFieldName] and [FIELD_MAPPINGS] (lines 227 to 229), whichever set
    the label is in. *)
Definition canonicalKey (label : string) : option (Z * string) :=
  match parseFieldName label with
  | Some parsed =>
      match fieldMapping (baseName parsed) with
      | Some mappedName => Some (index parsed, mappedName)
      | None => None
      end
  | None => None
  end.

(** A label that is in neither [PER_ITEM_FIELDS] nor [SHARED_FIELDS]. *)
Definition inNeitherSet (parsed : FieldName) : Prop :=
  setHas PER_ITEM_FIELDS (baseName parsed) = false /\
  setHas SHARED_FIELDS (baseName parsed) = false.

(** The test of line 279 on an item: whether its product and the site are
    both non-empty after cleansing, so that a record is pushed for it. *)
Definition hasRecord (sharedFields : FieldMap) (entry : Z * FieldMap) : bool :=
  truthy (stripSpoilerTags (orElse (fget "product" (snd entry)) "")) &&
  truthy (stripSpoilerTags (orElse (fget "site" sharedFields) "")).

(** A number that is an integer or an infinity. *)
Definition integerOrInfinite (x : number) : Prop :=
  (exists z, x = Dec z 0) \/ (exists negative, x = Infinity negative).

(** ** Messages used as examples *)

Definition field (n v : string) : EmbedField := {| name := n; value := v |}.

Definition embedOf (fs : list EmbedField) : option Embed :=
  Some {| title := Some "Successful Checkout";
          description := None;
          fields := Some fs;
          author := None |}.

(** A checkout of two items. *)
Definition twoItemEmbed : option Embed :=
  embedOf [ field "Site" "Shop";
            field "Product (1)" "Shoe"; field "Price (1)" "$10";
            field "Product (2)" "Hat"; field "Price (2)" "$5" ].

Definition shopRecord (p : string) (pr : Z) : ParsedWebhookMessage :=
  {| product := p; price := Dec pr 0; quantity := Dec 1 0; site := "Shop";
     sku := None; mode := None; fulfillment_type := None; profile := None;
     order_id := None; order_email := None; order_link := None;
     account := None; raw_message_text := "" |}.

(** An embed and a text that disagree on the site and on the product. *)
Definition conflictEmbed : option Embed :=
  embedOf [ field "Site" "EmbedShop"; field "Product" "EmbedShoe" ].

Definition conflictText : string :=
  "Site" ++ LF ++ "TextShop" ++ LF ++ "Product" ++ LF ++ "TextShoe".

(** An embed that names the site twice. *)
Definition repeatedSite : list EmbedField :=
  [ field "Site" "First"; field "Site" "Second"; field "Product" "Shoe" ].

(** An embed with a [Buy Now] field. *)
Definition buyNowEmbed : option Embed :=
  embedOf [ field "Site" "Shop"; field "Product" "Shoe";
            field "Buy Now" "Fast" ].

(** A text that gives a mode. *)
Definition modeText : string := "Mode" ++ LF ++ "Slow".

(** The digit [9], [n] times. *)
Fixpoint nines (n : nat) : string :=
  match n with
  | S n' => String "9" (nines n')
  | O => ""
  end.

(** A text with a negative price and a quantity of zero. *)
Definition outOfRangeText : string :=
  "Site" ++ LF ++ "Shop" ++ LF ++ "Product" ++ LF ++ "Shoe" ++ LF ++
  "Price" ++ LF ++ "-5" ++ LF ++ "Qty" ++ LF ++ "0".

(** The text of the end-to-end example of the specification. *)
Definition endToEndText : string :=
  "Site" ++ LF ++ "NikeStore" ++ LF ++ "Product" ++ LF ++ "Air Max" ++ LF ++
  "Price" ++ LF ++ "$100" ++ LF ++ "Qty" ++ LF ++ "2".

(** The record of the end-to-end example. *)
Definition endToEndRecord : ParsedWebhookMessage :=
  {| product := "Air Max"; price := Dec 100 0; quantity := Dec 2 0;
     site := "NikeStore"; sku := None; mode := None;
     fulfillment_type := None; profile := None; order_id := None;
     order_email := None; order_link := None; account := None;
     raw_message_text := endToEndText |}.

(** An embed whose title and description hold half a phrase each. *)
Definition splitPhraseEmbed : option Embed :=
  Some {| title := Some "Successful";
          description := Some "Checkout";
          fields := None;
          author := None |}.


(** The embed pass as the specification words it: the first field that
    writes a slot decides its value. *)
Definition firstWriteWins (fs : list EmbedField) : Prop :=
  forall pre f post s,
    fs = (pre ++ f :: post)%list ->
    slotOf f = Some s ->
    Forall (fun g => slotOf g <> Some s) pre ->
    lookupSlot s (fold_left recordEmbedField fs noFields)
      = Some (trim (value f)).

(** Prices and quantities as the specification words them. *)
Definition priceQuantityInRange (rs : list ParsedWebhookMessage) : Prop :=
  Forall (fun r => nonNegative (price r) = true /\
                   integerAtLeastOne (quantity r) = true) rs.

(** ** The listener ([index.ts])

    [processMessage] reads and updates [processedMessages] before its first
    [await], so one call is one step on that set; what [insertPurchase]
    answers decides the log lines only, and the requests a call sends are
    kept as a list, in the order of the loop.  The channel id of the
    configuration and the clock are arguments. *)

Record Message : Type := {
  message_id : string;
  channelId : string;
  content : option string;
  embeds : list Embed;
  createdAt : option string
}.

(** The argument of [insertPurchase]. *)
Record PurchasePayload : Type := {
  p_product : string;
  p_sku : option string;
  p_price : number;
  p_quantity : number;
  p_site : string;
  p_order_id : option string;
  p_order_email : option string;
  p_order_link : option string;
  p_mode : option string;
  p_fulfillment_type : option string;
  p_profile : option string;
  p_account : option string;
  purchase_date : string;
  p_raw_message_text : string;
  discord_message_id : string
}.

(** [String(i)] for an index of the loop. *)
Definition decimal (i : nat) : string :=
  NilEmpty.string_of_uint (Nat.to_uint i).

(** [v || undefined] for [v : string | null | undefined]. *)
Definition orUndefined (v : option string) : option string :=
  match v with
  | Some s => orNull s
  | None => None
  end.

(** [if (v) rawTextParts.push(v)]. *)
Definition pushed (v : option string) : list string :=
  match orUndefined v with
  | Some s => [s]
  | None => []
  end.

(** [`${field.name}\n${field.value}`]. *)
Definition fieldText (f : EmbedField) : string := name f ++ LF ++ value f.

(** What one embed adds to [rawTextParts] (lines 113 to 120). *)
Definition embedText (msgEmbed : Embed) : list string :=
  (pushed (title msgEmbed) ++
   pushed (description msgEmbed) ++
   pushed (match author msgEmbed with
           | Some a => author_name a
           | None => None
           end) ++
   match fields msgEmbed with
   | Some fs => map fieldText fs
   | None => []
   end)%list.

(** The embed in the format of the parser (lines 123 to 128). *)
Definition simplifyEmbed (msgEmbed : Embed) : Embed :=
  {| title := orUndefined (title msgEmbed);
     description := orUndefined (description msgEmbed);
     fields :=
       match fields msgEmbed with
       | Some fs =>
           Some (map (fun f => {| name := name f; value := value f |}) fs)
       | None => None
       end;
     author :=
       match author msgEmbed with
       | Some a => Some {| author_name := orUndefined (author_name a) |}
       | None => None
       end |}.

(** The loop over [message.embeds] (lines 111 to 129): every embed adds to
    the text, and [embed] is assigned at every turn. *)
Definition embedStep (acc : list string * option Embed) (msgEmbed : Embed)
    : list string * option Embed :=
  ((fst acc ++ embedText msgEmbed)%list, Some (simplifyEmbed msgEmbed)).

(** [rawTextParts] and [embed] after the loop (lines 103 to 129). *)
Definition messageInput (message : Message) : list string * option Embed :=
  fold_left embedStep (embeds message) (pushed (content message), None).

(** [rawText] (line 131). *)
Definition messageText (message : Message) : string :=
  join LF (fst (messageInput message)).

(** The argument of one [insertPurchase] call (lines 164 to 180). *)
Definition payloadOf (rawText purchaseDate discordMessageId : string)
    (parsed : ParsedWebhookMessage) : PurchasePayload :=
  {| p_product := product parsed;
     p_sku := sku parsed;
     p_price := price parsed;
     p_quantity := quantity parsed;
     p_site := site parsed;
     p_order_id := order_id parsed;
     p_order_email := order_email parsed;
     p_order_link := order_link parsed;
     p_mode := mode parsed;
     p_fulfillment_type := fulfillment_type parsed;
     p_profile := profile parsed;
     p_account := account parsed;
     purchase_date := purchaseDate;
     p_raw_message_text := rawText;
     discord_message_id := discordMessageId |}.

(** The loop over [parsedItems] from index [i] on (lines 158 to 188);
    [total] is [parsedItems.length]. *)
Fixpoint payloadsFrom (i total : nat) (messageId rawText purchaseDate : string)
    (parsedItems : list ParsedWebhookMessage) : list PurchasePayload :=
  match parsedItems with
  | [] => []
  | parsed :: tl =>
      let discordMessageId :=
        if (1 <? total)%nat then messageId ++ "_" ++ decimal i
        else messageId in
      payloadOf rawText purchaseDate discordMessageId parsed ::
      payloadsFrom (S i) total messageId rawText purchaseDate tl
  end.

(** [processedMessages.add(id)]. *)
Definition setAdd (x : string) (xs : list string) : list string :=
  if setHas xs x then xs else (xs ++ [x])%list.

(** [processMessage]: the set [processedMessages] after the call and the
    requests the call sends. *)
Definition processMessage (DISCORD_CHANNEL_ID now : string)
    (processedMessages : list string) (message : Message)
    : list string * list PurchasePayload :=
  if negb (String.eqb (channelId message) DISCORD_CHANNEL_ID)
  then (processedMessages, [])
  else if setHas processedMessages (message_id message)
  then (processedMessages, [])
  else
    let embed := snd (messageInput message) in
    let rawText := messageText message in
    if negb (isSuccessfulCheckout embed rawText) then (processedMessages, [])
    else
      let parsedItems := parseWebhookMessage embed rawText in
      match parsedItems with
      | [] => (processedMessages, [])
      | _ =>
          let purchaseDate := orElse (createdAt message) now in
          (setAdd (message_id message) processedMessages,
           payloadsFrom 0 (List.length parsedItems) (message_id message)
             rawText purchaseDate parsedItems)
      end.

(** One more message of a session, with the time it is handled at: the
    set after it and the requests sent so far. *)
Definition session (DISCORD_CHANNEL_ID : string)
    (acc : list string * list PurchasePayload) (event : string * Message)
    : list string * list PurchasePayload :=
  let r := processMessage DISCORD_CHANNEL_ID (fst event) (fst acc) (snd event) in
  (fst r, (snd acc ++ snd r)%list).

(** The request id [id] comes from the message id [a]. *)
Definition fromMessage (a id : string) : Prop :=
  id = a \/ exists i, id = a ++ "_" ++ decimal i.

(** A message id without an underscore, as the ids of Discord are. *)
Definition plainId (s : string) : Prop :=
  forall a b, s <> a ++ "_" ++ b.

(** The lines that the line-pair pass of [extractFieldsFromText] reads
    (line 128 of the parser). *)
Definition textLines (text : string) : list string :=
  filter (fun l => (0 <? String.length l)%nat) (map trim (splitLines text)).

(** The end of [spoilerPattern], after its group. *)
Definition spoilerTail : regex := (Lit "|" ;; Lit "|" ;; Eol false)%re.

(** Every code unit of [s] is in the class [p]. *)
Fixpoint allChars (p : ascii -> bool) (s : string) : bool :=
  match s with
  | "" => true
  | String c s' => p c && allChars p s'
  end.

(** The code units of [s] that are in the class [p]. *)
Fixpoint keepChars (p : ascii -> bool) (s : string) : string :=
  match s with
  | "" => ""
  | String c s' => if p c then String c (keepChars p s') else keepChars p s'
  end.

(** Neither white space nor an ASCII letter. *)
Definition plainChar (c : ascii) : bool := negb (isSpace c) && negb (isUpper c || isLower c).

(** A digit, [x] or [X]. *)
Definition quantityChar (c : ascii) : bool := isDigit c || ci "x" c.

(** A digit, a comma or one of the currency signs [$], [£] and [¥]. *)
Definition amountChar (c : ascii) : bool :=
  isDigit c || isChar 44 c || isChar 36 c || isChar 163 c || isChar 165 c.

(** [[a-z\s]], the class of the first group of [numberedPattern]. *)
Definition labelChar (c : ascii) : bool := isLower c || isSpace c.

(** A text of letters [a-z] and white space whose last code unit is a
    letter. *)
Fixpoint endsInLetter (y : string) : bool :=
  match y with
  | "" => true
  | String c y' =>
      match y' with
      | "" => isLower c
      | _ => labelChar c && endsInLetter y'
      end
  end.

(** The end of [numberedPattern]: the number in parentheses. *)
Definition numberedDigits : regex :=
  (Lit "(" ;; Grp 2 (Plus true isDigit) ;; Lit ")" ;; Eol false)%re.

(** [numberedPattern] after its first group. *)
Definition numberedTail : regex := (Star true isSpace ;; numberedDigits)%re.

(** A checkout message, and an edit of it. *)
Definition checkoutMessage : Message :=
  {| message_id := "7"; channelId := "chan";
     content := Some "Successful Checkout";
     embeds := [ {| title := None; description := None;
                    fields := Some [field "Site" "Shop";
                                    field "Product (1)" "Shoe";
                                    field "Product (2)" "Hat"];
                    author := None |} ];
     createdAt := None |}.

Definition editedMessage : Message :=
  {| message_id := "7"; channelId := "chan";
     content := Some "Successful Checkout (edited)";
     embeds := []; createdAt := None |}.

(** * Properties *)

(** ** The embedding on the examples of the specification *)

Example numbered_label :
  parseFieldName "Product (2)" = Some {| baseName := "product"; index := 1 |}.
Proof. vm_compute; reflexivity. Qed.

Example unknown_label : parseFieldName "Colour" = None.
Proof. vm_compute; reflexivity. Qed.

Example inherited_member :
  parseFieldName "Constructor"
    = Some {| baseName := "constructor"; index := 0 |} /\
  fieldMapping "constructor" = None.
Proof. split; vm_compute; reflexivity. Qed.

Example spoiler_stripped :
  stripSpoilerTags "||Widget||" = "Widget" /\ stripSpoilerTags "||||" = "||||".
Proof. split; vm_compute; reflexivity. Qed.

Example quantity_examples :
  parseQuantity "x3" = Dec 3 0 /\ parseQuantity "Qty: 5" = Dec 5 0 /\
  parseQuantity "abc" = Dec 1 0.
Proof. repeat split; vm_compute; reflexivity. Qed.

Example two_items :
  parseWebhookMessage twoItemEmbed ""
    = [shopRecord "Shoe" 10; shopRecord "Hat" 5].
Proof. vm_compute; reflexivity. Qed.

(** In the text, a repeated per-item label overwrites on the line-pair
    pass, and the colon pass fills gaps only. *)
Example text_passes :
  extractFieldsFromText
    ("Product" ++ LF ++ "One" ++ LF ++ "Product" ++ LF ++ "Two" ++ LF ++
     "Product: Three" ++ LF ++ "Site: A" ++ LF ++ "Site: B")
    = {| shared := [("site", "A")]; items := [(0, [("product", "Two")])] |}.
Proof. vm_compute; reflexivity. Qed.

(** A colon label may run over line ends, white space being part of it. *)
Example colon_label_over_lines :
  execAll colonPattern ("Site" ++ LF ++ "Shop" ++ LF ++ "Product: Shoe")
    = [[(2%nat, "Shoe");
        (1%nat, "Site" ++ LF ++ "Shop" ++ LF ++ "Product")]] /\
  extractFieldsFromText ("Site" ++ LF ++ "Shop" ++ LF ++ "Product: Shoe")
    = {| shared := [("site", "Shop")]; items := [] |}.
Proof. split; vm_compute; reflexivity. Qed.

Example double_rounding :
  toDouble (2 ^ 53 + 1) = 2 ^ 53 /\ toDouble (2 ^ 53 + 3) = 2 ^ 53 + 4 /\
  zeroBased "9007199254740993" = 9007199254740991.
Proof. repeat split; vm_compute; reflexivity. Qed.

(** ** Rounding to binary64 *)

(** [roundHalfEven n d] is an integer nearest to [n / d], and the even one
    of the two when [n / d] is half-way between two integers. *)
Lemma roundHalfEven_nearest n d :
  0 <= n -> 0 < d ->
  2 * Z.abs (n - d * roundHalfEven n d) <= d /\
  (2 * Z.abs (n - d * roundHalfEven n d) = d ->
   Z.odd (roundHalfEven n d) = false).
Proof.
  intros Hn Hd. unfold roundHalfEven.
  pose proof (Z.div_mod n d ltac:(lia)) as E.
  pose proof (Z.mod_pos_bound n d Hd) as Hr.
  remember (n / d) as q eqn:Eq. remember (n mod d) as r eqn:Er.
  clear Eq Er.
  destruct (Z.ltb_spec d (2 * r)) as [H1|H1]; cbn [orb].
  - rewrite Z.mul_add_distr_l. split; [lia|]. intros H. lia.
  - destruct (Z.eqb_spec d (2 * r)) as [H2|H2]; cbn [andb].
    + destruct (Z.odd q) eqn:Eo.
      * rewrite Z.mul_add_distr_l. split; [lia|]. intros _.
        rewrite Z.odd_add, Eo. reflexivity.
      * split; [lia|]. intros _. exact Eo.
    + split; [lia|]. intros H. lia.
Qed.

Lemma isNaN_numberOfInteger z : isNaN (numberOfInteger z) = false.
Proof.
  unfold numberOfInteger.
  now destruct (2 ^ 1024 <=? toDouble (Z.abs z)).
Qed.

Lemma numberOfInteger_cases z : integerOrInfinite (numberOfInteger z).
Proof.
  unfold numberOfInteger, integerOrInfinite.
  destruct (2 ^ 1024 <=? toDouble (Z.abs z)); eauto.
Qed.

Lemma toDouble_small n : (n < 2 ^ 53)%Z -> toDouble n = n.
Proof.
  intros H. unfold toDouble.
  destruct (Z.ltb_spec n (2 ^ 53)); [reflexivity|lia].
Qed.

(** Below [2^53] an integer is its own binary64. *)
Lemma numberOfInteger_exact z :
  Z.abs z < 2 ^ 53 -> numberOfInteger z = Dec z 0.
Proof.
  intros H. unfold numberOfInteger. rewrite toDouble_small by assumption.
  destruct (Z.leb_spec (2 ^ 1024) (Z.abs z)) as [Hle|_].
  - assert (2 ^ 53 < 2 ^ 1024) by (apply Z.pow_lt_mono_r; lia). lia.
  - f_equal. unfold signed. destruct (Z.ltb_spec z 0); lia.
Qed.

Lemma isNaN_binary64 negative p q : isNaN (binary64 negative p q) = false.
Proof.
  unfold binary64.
  repeat match goal with
         | |- context [if ?b then _ else _] => destruct b
         | |- context [let '(_, _) := ?x in _] => destruct x
         end; reflexivity.
Qed.

Lemma isNaN_numberOfDecimal m e : isNaN (numberOfDecimal m e) = false.
Proof.
  unfold numberOfDecimal.
  destruct (_ && _); [reflexivity|].
  destruct (0 <=? e); apply isNaN_binary64.
Qed.

(** A decimal of at most 15 significant digits is kept as it is written. *)
Lemma numberOfDecimal_kept m e :
  Z.abs m < 10 ^ 15 -> -307 <= e <= 0 -> numberOfDecimal m e = Dec m e.
Proof.
  intros Hm He. unfold numberOfDecimal.
  destruct (Z.ltb_spec (Z.abs m) (10 ^ 15)); [|lia].
  destruct (Z.leb_spec (-307) e); [|lia].
  destruct (Z.leb_spec e 0); [|lia]. reflexivity.
Qed.

(** The rounding of [numberOfInteger] and that of [numberOfDecimal] agree,
    and the binary64s next to [2^53], to the largest one and to the
    smallest one are the expected ones. *)
Example rounding_examples :
  forallb (fun n => match numberOfInteger n, numberOfDecimal n 0 with
                    | Dec a 0, Dec b 0 => a =? b
                    | Infinity false, Infinity false => true
                    | _, _ => false
                    end)
    [ 2 ^ 53; 2 ^ 53 + 1; 2 ^ 53 + 2; 2 ^ 53 + 3; 2 ^ 54 + 2; 2 ^ 54 + 6;
      10 ^ 22; 10 ^ 23; 3 ^ 200; 7 ^ 300; 2 ^ 1024 - 2 ^ 970 - 1;
      2 ^ 1024 - 2 ^ 970; 2 ^ 1024; 10 ^ 309 ] = true /\
  numberOfInteger 9007199254740993 = Dec 9007199254740992 0 /\
  numberOfInteger 9007199254740995 = Dec 9007199254740996 0 /\
  numberOfInteger (- 10 ^ 309) = Infinity true /\
  numberOfDecimal 1 23 = Dec 99999999999999991611392 0 /\
  numberOfDecimal 1 400 = Infinity false /\
  numberOfDecimal 17976931348623157 292 = Dec (2 ^ 1024 - 2 ^ 971) 0 /\
  numberOfDecimal 17976931348623159 292 = Infinity false /\
  numberOfDecimal 12345678901234567890 (-10)
    = Dec 12345678901234567165374755859375 (-22) /\
  numberOfDecimal 5 (-324) = Dec (5 ^ 1074) (-1074) /\
  numberOfDecimal 2 (-324) = Dec 0 0 /\
  numberOfDecimal 123456 (-2) = Dec 123456 (-2).
Proof. repeat split; vm_compute; reflexivity. Qed.

(** ** Maps in insertion order *)

Section JsMapFacts.
Context {K V : Type}.
Variable eqb : K -> K -> bool.
Hypothesis eqb_eq : forall x y, eqb x y = true <-> x = y.

Local Abbreviation get := (JsMap.get (V := V) eqb).
Local Abbreviation set := (JsMap.set (V := V) eqb).
Local Abbreviation keys := (JsMap.keys (K := K) (V := V)).
Local Abbreviation setAll := (fold_left (fun m e => set (fst e) (snd e) m)).

Lemma eqb_refl' (x : K) : eqb x x = true.
Proof. now apply eqb_eq. Qed.

Lemma eqb_neq' (x y : K) : x <> y -> eqb x y = false.
Proof.
  intros H. destruct (eqb x y) eqn:E; [|reflexivity].
  now apply eqb_eq in E.
Qed.

Lemma get_set_same (k : K) (v : V) m : get k (set k v m) = Some v.
Proof.
  induction m as [|[k' v'] m IH]; simpl.
  - now rewrite eqb_refl'.
  - destruct (eqb k k') eqn:E; simpl; rewrite ?eqb_refl', ?E; auto.
Qed.

Lemma get_set_other (k k' : K) (v : V) m :
  k <> k' -> get k (set k' v m) = get k m.
Proof.
  intros Hne. induction m as [|[k2 v2] m IH]; simpl.
  - now rewrite eqb_neq'.
  - destruct (eqb k' k2) eqn:E; simpl.
    + apply eqb_eq in E. subst k2. now rewrite eqb_neq'.
    + now rewrite IH.
Qed.

Lemma get_In (k : K) (v : V) m : get k m = Some v -> In (k, v) m.
Proof.
  induction m as [|[k' v'] m IH]; simpl; [discriminate|].
  destruct (eqb k k') eqn:E.
  - apply eqb_eq in E. intros [= ->]. subst. now left.
  - intros H. right. now apply IH.
Qed.

Lemma get_None (k : K) m : get k m = None -> ~ In k (keys m).
Proof.
  induction m as [|[k' v'] m IH]; simpl; [tauto|].
  destruct (eqb k k') eqn:E; [discriminate|].
  intros H [->|Hin]; [now rewrite eqb_refl' in E | now apply IH].
Qed.

Lemma get_Some_keys (k : K) (v : V) m : get k m = Some v -> In k (keys m).
Proof. intros H. apply get_In in H. now apply (in_map fst) in H. Qed.

Lemma In_keys_get (k : K) m : In k (keys m) -> exists v, get k m = Some v.
Proof.
  intros H. destruct (get k m) eqn:E; [eauto|].
  now apply get_None in E.
Qed.

Lemma In_get (k : K) (v : V) m :
  NoDup (keys m) -> In (k, v) m -> get k m = Some v.
Proof.
  induction m as [|[k' v'] m IH]; simpl; [tauto|].
  intros Hnd [[= -> ->]|Hin].
  - now rewrite eqb_refl'.
  - inversion Hnd as [|? ? Hnotin Hnd']; subst.
    rewrite eqb_neq'; [now apply IH|].
    intros ->. apply Hnotin. now apply (in_map fst) in Hin.
Qed.

Lemma keys_set (k : K) (v : V) m :
  keys (set k v m) = if JsMap.has eqb k m then keys m else (keys m ++ [k])%list.
Proof.
  unfold JsMap.has. induction m as [|[k' v'] m IH]; simpl; [reflexivity|].
  destruct (eqb k k') eqn:E; simpl.
  - apply eqb_eq in E. now subst.
  - rewrite IH. now destruct (get k m).
Qed.

Lemma NoDup_keys_set (k : K) (v : V) m :
  NoDup (keys m) -> NoDup (keys (set k v m)).
Proof.
  intros Hnd. rewrite keys_set. unfold JsMap.has.
  destruct (get k m) eqn:E; [assumption|].
  apply get_None in E.
  apply NoDup_app; [assumption|repeat constructor; simpl; tauto|].
  intros x Hx [<-|[]]. contradiction.
Qed.

Lemma get_setAll (k : K) entries m :
  get k (setAll entries m) =
  match get k (setAll entries []) with
  | Some v => Some v
  | None => get k m
  end.
Proof.
  revert m. induction entries as [|[k' v'] entries IH]; intros m; simpl.
  - reflexivity.
  - rewrite IH. rewrite (IH [(k', v')]).
    destruct (get k (setAll entries [])); [reflexivity|].
    simpl. destruct (eqb k k') eqn:E.
    + apply eqb_eq in E. subst. apply get_set_same.
    + apply get_set_other. intros ->. now rewrite eqb_refl' in E.
Qed.

Lemma get_ofEntries_app (k : K) (a b : list (K * V)) :
  get k (JsMap.ofEntries eqb (a ++ b)) =
  match get k (JsMap.ofEntries eqb b) with
  | Some v => Some v
  | None => get k (JsMap.ofEntries eqb a)
  end.
Proof.
  unfold JsMap.ofEntries. rewrite fold_left_app. apply get_setAll.
Qed.

Lemma get_ofEntries (k : K) (m : list (K * V)) :
  NoDup (keys m) -> get k (JsMap.ofEntries eqb m) = get k m.
Proof.
  unfold JsMap.ofEntries.
  induction m as [|[k' v'] m IH]; simpl; [reflexivity|].
  intros Hnd. inversion Hnd as [|? ? Hnotin Hnd']; subst.
  rewrite get_setAll, (IH Hnd'). simpl.
  destruct (eqb k k') eqn:E.
  - apply eqb_eq in E. subst k'.
    destruct (get k m) eqn:G; [|reflexivity].
    now apply get_Some_keys in G.
  - now destruct (get k m).
Qed.

Lemma In_setOf (x : K) (xs : list K) : In x (JsMap.setOf eqb xs) <-> In x xs.
Proof.
  unfold JsMap.setOf.
  enough (H : forall acc,
             In x (fold_left (fun s y => if existsb (eqb y) s then s
                                         else (s ++ [y])%list) xs acc)
             <-> In x acc \/ In x xs).
  { rewrite H. simpl. tauto. }
  induction xs as [|y xs IH]; intros acc; simpl; [tauto|].
  rewrite IH. destruct (existsb (eqb y) acc) eqn:E.
  - apply existsb_exists in E. destruct E as [z [Hz Hyz]].
    apply eqb_eq in Hyz. subst z.
    split; [tauto|]. intros [H|[<-|H]]; tauto.
  - rewrite in_app_iff. simpl. tauto.
Qed.
End JsMapFacts.

(** The maps of the parser: keys are compared with [String.eqb] and [Z.eqb]. *)

Lemma fget_fset_same k v m : fget k (fset k v m) = Some v.
Proof. apply get_set_same, String.eqb_eq. Qed.

Lemma fget_fset_other k k' v m : k <> k' -> fget k (fset k' v m) = fget k m.
Proof. apply get_set_other, String.eqb_eq. Qed.

Lemma iget_iset_same i f m : iget i (iset i f m) = Some f.
Proof. apply get_set_same, Z.eqb_eq. Qed.

Lemma iget_iset_other i j f m : i <> j -> iget i (iset j f m) = iget i m.
Proof. apply get_set_other, Z.eqb_eq. Qed.

Lemma orElse_empty (v : string) : orElse (Some v) "" = v.
Proof.
  unfold orElse, truthy. destruct (String.eqb_spec v ""); simpl; congruence.
Qed.

Lemma truthy_false (s : string) : truthy s = false <-> s = "".
Proof.
  unfold truthy. destruct (String.eqb_spec s ""); simpl; split; congruence.
Qed.

Lemma truthy_true (s : string) : truthy s = true <-> s <> "".
Proof.
  unfold truthy. destruct (String.eqb_spec s ""); simpl; split; congruence.
Qed.

(** ** Sorting by item index *)

Section SortFacts.
Context {A : Type}.
Variable cmp : A -> A -> Z.

Lemma In_insertSorted (x y : A) (l : list A) :
  In y (insertSorted cmp x l) <-> y = x \/ In y l.
Proof.
  induction l as [|z l IH]; simpl.
  - intuition congruence.
  - destruct (cmp z x <? 0); simpl; [rewrite IH|]; intuition congruence.
Qed.

Lemma In_sortBy (y : A) (l : list A) : In y (sortBy cmp l) <-> In y l.
Proof.
  induction l as [|x l IH]; simpl; [tauto|].
  rewrite In_insertSorted, IH. intuition congruence.
Qed.
End SortFacts.



Lemma In_sortedEntries (x : Z * FieldMap) (its : ItemMap) :
  In x (sortedEntries its) <-> In x its.
Proof. apply In_sortBy. Qed.

(** ** The loop that builds the records *)

Lemma fold_pushPurchase sh raw entries acc :
  fold_left (pushPurchase sh raw) entries acc =
  (acc ++ flat_map (recordsOf sh raw) entries)%list.
Proof.
  revert acc. induction entries as [|x entries IH]; intros acc; simpl.
  - now rewrite app_nil_r.
  - rewrite IH. unfold pushPurchase, recordsOf.
    destruct (buildPurchase sh raw (snd x)); simpl.
    + now rewrite <- app_assoc.
    + reflexivity.
Qed.

Lemma parseWebhookMessage_flat_map embed rawText :
  parseWebhookMessage embed rawText =
  flat_map (recordsOf (mergedShared embed rawText) rawText)
    (sortedEntries (mergedItems embed rawText)).
Proof. unfold parseWebhookMessage. now rewrite fold_pushPurchase. Qed.

Lemma In_parseWebhookMessage embed rawText r :
  In r (parseWebhookMessage embed rawText) <->
  exists entry,
    In entry (sortedEntries (mergedItems embed rawText)) /\
    buildPurchase (mergedShared embed rawText) rawText (snd entry) = Some r.
Proof.
  rewrite parseWebhookMessage_flat_map, in_flat_map.
  split; intros [entry [Hin H]]; exists entry; split; auto.
  - unfold recordsOf in H.
    destruct (buildPurchase _ _ (snd entry)); simpl in H; [|tauto].
    destruct H as [->|[]]. reflexivity.
  - unfold recordsOf. rewrite H. now left.
Qed.

(** What [buildPurchase] puts in a record. *)
Lemma buildPurchase_Some sh raw f r :
  buildPurchase sh raw f = Some r ->
  let clean key := stripSpoilerTags (orElse (fget key sh) "") in
  product r = stripSpoilerTags (orElse (fget "product" f) "") /\
  product r <> "" /\
  price r = parsePrice (orElse (fget "price" f) "0") /\
  quantity r = parseQuantity (orElse (fget "quantity" f) "1") /\
  sku r = orNull (stripSpoilerTags (orElse (fget "sku" f) "")) /\
  site r = clean "site" /\
  site r <> "" /\
  sharedPart r =
    (clean "site", orNull (clean "mode"), orNull (clean "fulfillment_type"),
     orNull (clean "profile"), orNull (clean "order_id"),
     orNull (clean "order_email"), orNull (clean "order_link"),
     orNull (clean "account"), raw).
Proof.
  unfold buildPurchase.
  destruct (truthy (stripSpoilerTags (orElse (fget "product" f) ""))) eqn:Ep;
    [|discriminate].
  destruct (truthy (stripSpoilerTags (orElse (fget "site" sh) ""))) eqn:Es;
    [|discriminate].
  simpl. intros [= <-]. simpl.
  apply truthy_true in Ep. apply truthy_true in Es.
  repeat split; assumption.
Qed.

Lemma buildPurchase_None sh raw f :
  buildPurchase sh raw f = None <->
  stripSpoilerTags (orElse (fget "product" f) "") = "" \/
  stripSpoilerTags (orElse (fget "site" sh) "") = "".
Proof.
  unfold buildPurchase. rewrite <- !truthy_false.
  destruct (truthy (stripSpoilerTags (orElse (fget "product" f) "")));
    destruct (truthy (stripSpoilerTags (orElse (fget "site" sh) "")));
    simpl; split; intros H; try discriminate; auto;
    destruct H; discriminate.
Qed.

(** ** Writes into the item map *)

Lemma iget_ensureItem i j its :
  orEmpty (iget i (ensureItem j its)) = orEmpty (iget i its).
Proof.
  unfold ensureItem, ihas, JsMap.has. fold (iget j its).
  destruct (iget j its) eqn:E; [reflexivity|].
  destruct (Z.eq_dec i j) as [->|Hne].
  - now rewrite iget_iset_same, E.
  - now rewrite iget_iset_other.
Qed.

Lemma iget_ensureItem_Some i j its m :
  iget i (ensureItem j its) = Some m -> iget i its = Some m \/ m = [].
Proof.
  unfold ensureItem, ihas, JsMap.has. fold (iget j its).
  destruct (iget j its) eqn:E; [tauto|].
  destruct (Z.eq_dec i j) as [->|Hne].
  - rewrite iget_iset_same. intros [= <-]. now right.
  - rewrite iget_iset_other by assumption. tauto.
Qed.

Lemma NoDup_ensureItem j its :
  NoDup (JsMap.keys its) -> NoDup (JsMap.keys (ensureItem j its)).
Proof.
  unfold ensureItem. destruct (ihas j its); [tauto|].
  apply NoDup_keys_set, Z.eqb_eq.
Qed.

Lemma lookup_setItemField i k j k' v sh its :
  lookupSlot (ItemSlot i k)
    {| shared := sh; items := setItemField j k' v (ensureItem j its) |} =
  if (i =? j) && String.eqb k k' then Some v
  else fget k (orEmpty (iget i its)).
Proof.
  simpl. unfold setItemField.
  destruct (Z.eqb_spec i j) as [->|Hne]; simpl.
  - rewrite iget_iset_same. simpl. rewrite iget_ensureItem.
    destruct (String.eqb_spec k k') as [->|Hk].
    + apply fget_fset_same.
    + now apply fget_fset_other.
  - rewrite iget_iset_other by assumption. now rewrite iget_ensureItem.
Qed.

Lemma setItemField_wf j k v sh its :
  fieldsWf {| shared := sh; items := its |} ->
  fieldsWf {| shared := sh; items := setItemField j k v (ensureItem j its) |}.
Proof.
  intros (Hs & Hi & Hin). simpl in *. repeat split; simpl.
  - assumption.
  - unfold setItemField. apply NoDup_keys_set; [apply Z.eqb_eq|].
    now apply NoDup_ensureItem.
  - intros i m. unfold setItemField.
    assert (Hinner : NoDup (JsMap.keys (orEmpty (iget j (ensureItem j its))))).
    { rewrite iget_ensureItem. destruct (iget j its) eqn:E; simpl.
      - now apply (Hin j).
      - constructor. }
    destruct (Z.eq_dec i j) as [->|Hne].
    + rewrite iget_iset_same. intros [= <-].
      now apply NoDup_keys_set; [apply String.eqb_eq|].
    + rewrite iget_iset_other by assumption. intros H.
      apply iget_ensureItem_Some in H. destruct H as [H| ->].
      * now apply (Hin i).
      * constructor.
Qed.

(** ** The pass over the embed fields *)

Lemma noFields_wf : fieldsWf noFields.
Proof. repeat split; simpl; try constructor. discriminate. Qed.

Lemma recordEmbedField_wf acc field :
  fieldsWf acc -> fieldsWf (recordEmbedField acc field).
Proof.
  intros Hwf. unfold recordEmbedField.
  destruct (parseFieldName (name field)) as [parsed|]; [|assumption].
  destruct (fieldMapping (baseName parsed)) as [mappedName|]; [|assumption].
  destruct (setHas PER_ITEM_FIELDS (baseName parsed)).
  - destruct acc as [sh its]. now apply setItemField_wf.
  - destruct (setHas SHARED_FIELDS (baseName parsed)); [|assumption].
    destruct Hwf as (Hs & Hi & Hin). repeat split; simpl; try assumption.
    apply NoDup_keys_set; [apply String.eqb_eq|assumption].
Qed.

Lemma fold_recordEmbedField_wf fs acc :
  fieldsWf acc -> fieldsWf (fold_left recordEmbedField fs acc).
Proof.
  revert acc. induction fs as [|f fs IH]; intros acc H; simpl; [assumption|].
  now apply IH, recordEmbedField_wf.
Qed.

Lemma embedFields_wf embed : fieldsWf (embedFields embed).
Proof.
  unfold embedFields. destruct embed as [e|]; [|apply noFields_wf].
  destruct (fields e); [|apply noFields_wf].
  apply fold_recordEmbedField_wf, noFields_wf.
Qed.

(** A field that writes a slot leaves its trimmed value there. *)
Lemma recordEmbedField_hit acc field s :
  slotOf field = Some s ->
  lookupSlot s (recordEmbedField acc field) = Some (trim (value field)).
Proof.
  unfold slotOf, recordEmbedField.
  destruct (parseFieldName (name field)) as [parsed|]; [|discriminate].
  destruct (fieldMapping (baseName parsed)) as [mappedName|]; [|discriminate].
  destruct (setHas PER_ITEM_FIELDS (baseName parsed)).
  - intros [= <-]. destruct acc as [sh its]. rewrite lookup_setItemField.
    now rewrite Z.eqb_refl, String.eqb_refl.
  - destruct (setHas SHARED_FIELDS (baseName parsed)); [|discriminate].
    intros [= <-]. simpl. apply fget_fset_same.
Qed.

(** A field that does not write a slot leaves the slot as it was. *)
Lemma recordEmbedField_miss acc field s :
  slotOf field <> Some s ->
  lookupSlot s (recordEmbedField acc field) = lookupSlot s acc.
Proof.
  unfold slotOf, recordEmbedField.
  destruct (parseFieldName (name field)) as [parsed|]; [|reflexivity].
  destruct (fieldMapping (baseName parsed)) as [mappedName|]; [|reflexivity].
  destruct (setHas PER_ITEM_FIELDS (baseName parsed)).
  - intros Hne. destruct acc as [sh its]. destruct s as [k|i k].
    + reflexivity.
    + rewrite lookup_setItemField.
      destruct (Z.eqb_spec i (index parsed)) as [->|]; [|reflexivity].
      destruct (String.eqb_spec k mappedName) as [->|]; [|reflexivity].
      now contradiction Hne.
  - destruct (setHas SHARED_FIELDS (baseName parsed)); [|reflexivity].
    intros Hne. destruct s as [k|i k]; [|reflexivity].
    simpl. apply fget_fset_other. intros ->. now contradiction Hne.
Qed.

Lemma fold_recordEmbedField_miss fs acc s :
  Forall (fun g => slotOf g <> Some s) fs ->
  lookupSlot s (fold_left recordEmbedField fs acc) = lookupSlot s acc.
Proof.
  intros H. revert acc.
  induction H as [|g fs Hg _ IH]; intros acc; simpl; [reflexivity|].
  now rewrite IH, recordEmbedField_miss.
Qed.

Lemma shared_label_key b m :
  setHas SHARED_FIELDS b = true -> fieldMapping b = Some m -> In m sharedKeys.
Proof.
  intros H. apply existsb_exists in H. destruct H as [x [Hin Hx]].
  apply String.eqb_eq in Hx. subst x. simpl in Hin.
  repeat (destruct Hin as [<-|Hin]; [intros [= <-]; simpl; tauto|]).
  contradiction.
Qed.

Lemma item_label_key b m :
  setHas PER_ITEM_FIELDS b = true -> fieldMapping b = Some m -> In m itemKeys.
Proof.
  intros H. apply existsb_exists in H. destruct H as [x [Hin Hx]].
  apply String.eqb_eq in Hx. subst x. simpl in Hin.
  repeat (destruct Hin as [<-|Hin]; [intros [= <-]; simpl; tauto|]).
  contradiction.
Qed.

Lemma recordEmbedField_keys acc field :
  keysWithin acc -> keysWithin (recordEmbedField acc field).
Proof.
  intros [Hs Hi]. unfold recordEmbedField.
  destruct (parseFieldName (name field)) as [parsed|]; [|now split].
  destruct (fieldMapping (baseName parsed)) as [mappedName|] eqn:Em;
    [|now split].
  destruct (setHas PER_ITEM_FIELDS (baseName parsed)) eqn:Ep.
  - split; [exact Hs|]. intros i k v. destruct acc as [sh its].
    change (lookupSlot (ItemSlot i k)
              {| shared := sh;
                 items := setItemField (index parsed) mappedName
                            (trim (value field))
                            (ensureItem (index parsed) its) |} = Some v
            -> In k itemKeys).
    rewrite lookup_setItemField.
    destruct (Z.eqb_spec i (index parsed)); simpl; [|apply Hi].
    destruct (String.eqb_spec k mappedName) as [->|]; [|apply Hi].
    intros _. now apply (item_label_key (baseName parsed)).
  - destruct (setHas SHARED_FIELDS (baseName parsed)) eqn:Esh; [|now split].
    split; [|exact Hi]. simpl. intros k v.
    destruct (String.eqb_spec k mappedName) as [->|Hne].
    + intros _. now apply (shared_label_key (baseName parsed)).
    + rewrite fget_fset_other by assumption. apply Hs.
Qed.

Lemma embedFields_keys embed : keysWithin (embedFields embed).
Proof.
  assert (H0 : keysWithin noFields) by (split; simpl; discriminate).
  unfold embedFields. destruct embed as [e|]; [|exact H0].
  destruct (fields e) as [fs|]; [|exact H0].
  revert H0. generalize noFields.
  induction fs as [|f fs IH]; intros acc H; simpl; [assumption|].
  now apply IH, recordEmbedField_keys.
Qed.

(** ** The merge of the two sources *)

Lemma fget_mergedShared embed rawText k :
  fget k (mergedShared embed rawText) =
  match fget k (shared (embedFields embed)) with
  | Some v => Some v
  | None =>
      fget k (JsMap.ofEntries String.eqb (shared (extractFieldsFromText rawText)))
  end.
Proof.
  unfold mergedShared, fget.
  rewrite (get_ofEntries_app _ String.eqb_eq).
  rewrite (get_ofEntries _ String.eqb_eq); [reflexivity|].
  apply embedFields_wf.
Qed.

Lemma fold_mergeItem_notin t e l acc i :
  ~ In i l -> iget i (fold_left (mergeItem t e) l acc) = iget i acc.
Proof.
  revert acc. induction l as [|j l IH]; intros acc Hnotin; simpl.
  - reflexivity.
  - rewrite IH by (intros H; apply Hnotin; now right).
    unfold mergeItem. apply iget_iset_other.
    intros ->. apply Hnotin. now left.
Qed.

Lemma fold_mergeItem_in t e l acc i :
  In i l -> iget i (fold_left (mergeItem t e) l acc) = Some (mergedAt t e i).
Proof.
  revert acc. induction l as [|j l IH]; intros acc; simpl; [tauto|].
  destruct (in_dec Z.eq_dec i l) as [Hin|Hnotin]; [intros _; now apply IH|].
  intros [->|Hin]; [|contradiction].
  rewrite fold_mergeItem_notin by assumption.
  unfold mergeItem. apply iget_iset_same.
Qed.

Lemma NoDup_fold_mergeItem t e l acc :
  NoDup (JsMap.keys acc) ->
  NoDup (JsMap.keys (fold_left (mergeItem t e) l acc)).
Proof.
  revert acc. induction l as [|j l IH]; intros acc H; simpl; [assumption|].
  apply IH. unfold mergeItem. now apply NoDup_keys_set; [apply Z.eqb_eq|].
Qed.

Lemma NoDup_mergedItems embed rawText :
  NoDup (JsMap.keys (mergedItems embed rawText)).
Proof.
  unfold mergedItems.
  match goal with |- context [fold_left ?f ?l ?a] =>
    pose proof (NoDup_fold_mergeItem
                  (items (extractFieldsFromText rawText))
                  (items (embedFields embed)) l a) as H;
    destruct (fold_left f l a) end.
  - simpl. repeat constructor. simpl. tauto.
  - apply H. constructor.
Qed.

Lemma iget_mergedItems_embed embed rawText i m :
  iget i (items (embedFields embed)) = Some m ->
  iget i (mergedItems embed rawText) =
  Some (mergedAt (items (extractFieldsFromText rawText))
          (items (embedFields embed)) i).
Proof.
  intros H. unfold mergedItems.
  match goal with |- context [fold_left ?f ?l ?a] =>
    pose proof (fold_mergeItem_in
                  (items (extractFieldsFromText rawText))
                  (items (embedFields embed)) l a i) as Hf;
    destruct (fold_left f l a) end.
  - discriminate Hf.
    apply (In_setOf _ Z.eqb_eq), in_or_app. left.
    now apply (get_Some_keys _ Z.eqb_eq i m).
  - apply Hf.
    apply (In_setOf _ Z.eqb_eq), in_or_app. left.
    now apply (get_Some_keys _ Z.eqb_eq i m).
Qed.

Lemma fget_mergedAt_embed t e i m k v :
  (forall j f, iget j e = Some f -> NoDup (JsMap.keys f)) ->
  iget i e = Some m -> fget k m = Some v ->
  fget k (mergedAt t e i) = Some v.
Proof.
  intros Hwf Hi Hk. unfold mergedAt, fget.
  rewrite (get_ofEntries_app _ String.eqb_eq), Hi. simpl.
  rewrite (get_ofEntries _ String.eqb_eq) by now apply (Hwf i).
  unfold fget in Hk. now rewrite Hk.
Qed.

(** * The claims of the specification *)

(** C1. All the records that one call of [parseWebhookMessage] returns have
    the same site, mode, fulfillment type, profile, order id, order email,
    order link, account and raw message text. *)
Theorem shared_fields_identical embed rawText r1 r2 :
  In r1 (parseWebhookMessage embed rawText) ->
  In r2 (parseWebhookMessage embed rawText) ->
  site r1 = site r2 /\ mode r1 = mode r2 /\
  fulfillment_type r1 = fulfillment_type r2 /\ profile r1 = profile r2 /\
  order_id r1 = order_id r2 /\ order_email r1 = order_email r2 /\
  order_link r1 = order_link r2 /\ account r1 = account r2 /\
  raw_message_text r1 = raw_message_text r2.
Proof.
  intros H1 H2.
  apply In_parseWebhookMessage in H1. destruct H1 as [e1 [_ H1]].
  apply In_parseWebhookMessage in H2. destruct H2 as [e2 [_ H2]].
  apply buildPurchase_Some in H1. apply buildPurchase_Some in H2.
  destruct H1 as (_ & _ & _ & _ & _ & _ & _ & H1).
  destruct H2 as (_ & _ & _ & _ & _ & _ & _ & H2).
  rewrite <- H2 in H1. unfold sharedPart in H1.
  injection H1 as -> -> -> -> -> -> -> -> ->. repeat split.
Qed.

Lemma shared_fields_identical_witness :
  In (shopRecord "Shoe" 10) (parseWebhookMessage twoItemEmbed "") /\
  In (shopRecord "Hat" 5) (parseWebhookMessage twoItemEmbed "") /\
  site (shopRecord "Shoe" 10) = site (shopRecord "Hat" 5).
Proof.
  assert (H1 : In (shopRecord "Shoe" 10) (parseWebhookMessage twoItemEmbed ""))
    by (vm_compute; left; reflexivity).
  assert (H2 : In (shopRecord "Hat" 5) (parseWebhookMessage twoItemEmbed ""))
    by (vm_compute; right; left; reflexivity).
  exact (conj H1 (conj H2
           (proj1 (shared_fields_identical twoItemEmbed "" _ _ H1 H2)))).
Defined.

(** C2 fails on an embed field labelled [Buy Now].  The label resolves to
    the canonical key [mode], so this embed field and the text [Mode],
    [Slow] both give a value for [mode]; but the label is in neither
    [PER_ITEM_FIELDS] nor [SHARED_FIELDS] (the defect of C5), the pass over
    the embed fields records nothing for it, and the value of the text is
    the one in the merged map and in the record.  With the same value
    under the label [Mode] the embed wins. *)
Theorem embed_buy_now_loses_to_text :
  buyNowEmbed = embedOf [ field "Site" "Shop"; field "Product" "Shoe";
                          field "Buy Now" "Fast" ] /\
  canonicalKey "Buy Now" = Some (0, "mode") /\
  canonicalKey "Mode" = Some (0, "mode") /\
  slotOf (field "Buy Now" "Fast") = None /\
  lookupSlot (SharedSlot "mode") (extractFieldsFromText modeText)
    = Some "Slow" /\
  lookupSlot (SharedSlot "mode") (embedFields buyNowEmbed) = None /\
  lookupSlot (SharedSlot "mode") (merged buyNowEmbed modeText)
    = Some "Slow" /\
  map mode (parseWebhookMessage buyNowEmbed modeText) = [Some "Slow"] /\
  map mode
    (parseWebhookMessage
       (embedOf [ field "Site" "Shop"; field "Product" "Shoe";
                  field "Mode" "Fast" ]) modeText) = [Some "Fast"].
Proof. repeat split; vm_compute; reflexivity. Qed.

(** C3. Every record has a product and a site that are not empty after the
    spoiler tags are stripped; each item gives its record, or none, on its
    own; an item gives none exactly when its product or the site is empty;
    and the result may be empty. *)
Theorem required_fields_gate embed rawText :
  Forall (fun r => product r <> "" /\ site r <> "" /\
                   exists itemFields,
                     product r =
                       stripSpoilerTags (orElse (fget "product" itemFields) "") /\
                     site r =
                       stripSpoilerTags
                         (orElse (fget "site" (mergedShared embed rawText)) ""))
    (parseWebhookMessage embed rawText) /\
  parseWebhookMessage embed rawText =
    flat_map (recordsOf (mergedShared embed rawText) rawText)
      (sortedEntries (mergedItems embed rawText)) /\
  (forall entry,
     recordsOf (mergedShared embed rawText) rawText entry = [] <->
     stripSpoilerTags (orElse (fget "product" (snd entry)) "") = "" \/
     stripSpoilerTags (orElse (fget "site" (mergedShared embed rawText)) "")
       = "") /\
  parseWebhookMessage None "" = [].
Proof.
  split; [|split; [|split]].
  - apply Forall_forall. intros r Hr.
    apply In_parseWebhookMessage in Hr. destruct Hr as [entry [_ Hr]].
    apply buildPurchase_Some in Hr.
    destruct Hr as (Hp & Hpne & _ & _ & _ & Hs & Hsne & _).
    split; [assumption|]. split; [assumption|]. now exists (snd entry).
  - apply parseWebhookMessage_flat_map.
  - intros entry. unfold recordsOf. split; intros H.
    + apply (proj1 (buildPurchase_None _ rawText _)).
      now destruct (buildPurchase _ _ (snd entry)).
    + apply (proj2 (buildPurchase_None _ rawText _)) in H. now rewrite H.
  - vm_compute; reflexivity.
Qed.

(** C4, as the specification states it, fails on an embed that names the
    site twice: the value of the second field is the one kept. *)
Lemma embed_first_write_lost :
  lookupSlot (SharedSlot "site") (embedFields (embedOf repeatedSite))
    = Some "Second" /\
  map site (parseWebhookMessage (embedOf repeatedSite) "") = ["Second"] /\
  ~ firstWriteWins repeatedSite.
Proof.
  split; [vm_compute; reflexivity|].
  split; [vm_compute; reflexivity|].
  intros H.
  assert (Hs : slotOf (field "Site" "First") = Some (SharedSlot "site"))
    by (vm_compute; reflexivity).
  specialize (H [] (field "Site" "First")
                [field "Site" "Second"; field "Product" "Shoe"]
                (SharedSlot "site") eq_refl Hs (Forall_nil _)).
  vm_compute in H. discriminate H.
Qed.

(** C4, amended. Within the pass over the embed fields the last write
    wins: among the fields that write a slot, those whose label is in
    [PER_ITEM_FIELDS] or [SHARED_FIELDS] ([slotOf]), the value kept for a
    key (and, for a per-item key, an item index) is the trimmed value of
    the last field that writes it. *)
Theorem embed_last_write_wins embed pre f post s :
  fields embed = Some (pre ++ f :: post)%list ->
  slotOf f = Some s ->
  Forall (fun g => slotOf g <> Some s) post ->
  lookupSlot s (embedFields (Some embed)) = Some (trim (value f)).
Proof.
  intros Hf Hs Hpost. unfold embedFields. rewrite Hf.
  rewrite fold_left_app. simpl.
  rewrite fold_recordEmbedField_miss by assumption.
  now apply recordEmbedField_hit.
Qed.

Lemma embed_last_write_wins_witness :
  lookupSlot (SharedSlot "site") (embedFields (embedOf repeatedSite))
    = Some (trim "Second") /\
  lookupSlot (SharedSlot "mode")
    (embedFields (embedOf [field "Mode" "A"; field "Buy Now" "B"]))
    = Some (trim "A").
Proof.
  split.
  - apply (embed_last_write_wins _ [field "Site" "First"]
             (field "Site" "Second") [field "Product" "Shoe"]
             (SharedSlot "site")).
    + reflexivity.
    + vm_compute; reflexivity.
    + repeat constructor. vm_compute. discriminate.
  - apply (embed_last_write_wins _ [] (field "Mode" "A")
             [field "Buy Now" "B"] (SharedSlot "mode")).
    + reflexivity.
    + vm_compute; reflexivity.
    + repeat constructor. vm_compute. discriminate.
Defined.

(** C5. The labels [buy now] and [buy now atc?] resolve to the key [mode],
    but they are in neither [PER_ITEM_FIELDS] nor [SHARED_FIELDS]: the
    value is recorded nowhere, from an embed field or from the text, and
    the records have no mode. *)
Theorem buy_now_value_dropped :
  (forall label,
     In (trim (toLowerCase label)) ["buy now"; "buy now atc?"] ->
     exists parsed,
       parseFieldName label = Some parsed /\
       baseName parsed = trim (toLowerCase label) /\
       index parsed = 0 /\
       fieldMapping (baseName parsed) = Some "mode" /\
       setHas SHARED_FIELDS (baseName parsed) = false /\
       setHas PER_ITEM_FIELDS (baseName parsed) = false) /\
  (forall acc f,
     In (trim (toLowerCase (name f))) ["buy now"; "buy now atc?"] ->
     recordEmbedField acc f = acc) /\
  extractFieldsFromText ("Buy Now" ++ LF ++ "Fast") = noFields /\
  extractFieldsFromText "Buy Now: Fast" = noFields /\
  map mode (parseWebhookMessage buyNowEmbed "") = [None].
Proof.
  assert (H : forall label,
            In (trim (toLowerCase label)) ["buy now"; "buy now atc?"] ->
            exists parsed,
              parseFieldName label = Some parsed /\
              baseName parsed = trim (toLowerCase label) /\
              index parsed = 0 /\
              fieldMapping (baseName parsed) = Some "mode" /\
              setHas SHARED_FIELDS (baseName parsed) = false /\
              setHas PER_ITEM_FIELDS (baseName parsed) = false).
  { intros label Hl. unfold parseFieldName.
    destruct Hl as [<-|[<-|[]]]; eexists; repeat split;
      vm_compute; reflexivity. }
  split; [exact H|].
  split.
  - intros acc f Hf. destruct (H _ Hf) as (p & Hp & _ & _ & Hm & Hs & Hi).
    unfold recordEmbedField. now rewrite Hp, Hm, Hi, Hs.
  - repeat split; vm_compute; reflexivity.
Qed.

(** C6, as the specification states it, fails on a price of [-5] and a
    quantity of [0]. *)
Lemma price_quantity_out_of_range :
  map (fun r => (price r, quantity r)) (parseWebhookMessage None outOfRangeText)
    = [(Dec (-5) 0, Dec 0 0)] /\
  ~ priceQuantityInRange (parseWebhookMessage None outOfRangeText).
Proof.
  split; [vm_compute; reflexivity|].
  intros H. vm_compute in H. inversion H as [|r rs [Hp _] _]. discriminate Hp.
Qed.

(** C6, amended. The prices and the quantities of the records are those of
    the items that pass the test on product and site, in the order of the
    item indices: the price of a record is [parsePrice] of the price text
    of its item (['0'] when the item has none), the number that
    [parseFloat] reads in the cleansed text, or [0] when it reads none; the
    quantity is [parseQuantity] of the quantity text of its item (['1']
    when it has none), the integer that [parseInt] reads in the cleaned
    text as a number, or [1] when it reads none.  So neither is ever [NaN],
    and a quantity is an integer or, for a run of digits beyond the
    binary64 range, an infinity.  Neither is checked against a range. *)
Theorem price_quantity_of_item embed rawText :
  map (fun r => (price r, quantity r)) (parseWebhookMessage embed rawText) =
    map (fun entry =>
           (parsePrice (orElse (fget "price" (snd entry)) "0"),
            parseQuantity (orElse (fget "quantity" (snd entry)) "1")))
      (filter (hasRecord (mergedShared embed rawText))
         (sortedEntries (mergedItems embed rawText))) /\
  (forall s, parsePrice s =
             match parseFloat (cleanPrice s) with
             | NaN => Dec 0 0
             | parsed => parsed
             end) /\
  (forall s, parseQuantity s =
             match parseIntZ (cleanQuantity s) with
             | Some z => numberOfInteger z
             | None => Dec 1 0
             end) /\
  Forall (fun r => isNaN (price r) = false /\ isNaN (quantity r) = false /\
                   integerOrInfinite (quantity r))
    (parseWebhookMessage embed rawText) /\
  parsePrice "free" = Dec 0 0 /\ parseQuantity "many" = Dec 1 0 /\
  parseQuantity (nines 400) = Infinity false.
Proof.
  assert (Hp : forall s, parsePrice s =
                         match parseFloat (cleanPrice s) with
                         | NaN => Dec 0 0
                         | parsed => parsed
                         end).
  { intros s. unfold parsePrice. now destruct (parseFloat (cleanPrice s)). }
  assert (Hq : forall s, parseQuantity s =
                         match parseIntZ (cleanQuantity s) with
                         | Some z => numberOfInteger z
                         | None => Dec 1 0
                         end).
  { intros s. unfold parseQuantity, parseInt.
    destruct (parseIntZ (cleanQuantity s)) as [z|]; [|reflexivity].
    now rewrite isNaN_numberOfInteger. }
  split; [|split; [exact Hp|split; [exact Hq|split]]].
  - rewrite parseWebhookMessage_flat_map.
    induction (sortedEntries (mergedItems embed rawText)) as [|entry l IH];
      [reflexivity|].
    cbn [flat_map filter]. rewrite map_app, IH.
    unfold recordsOf at 1, hasRecord at 2.
    destruct (buildPurchase _ rawText (snd entry)) as [r|] eqn:E.
    + apply buildPurchase_Some in E.
      destruct E as (Epr & Hne & Eprice & Eqty & _ & Es & Hsne & _).
      rewrite <- Epr, <- Es.
      rewrite (proj2 (truthy_true _) Hne), (proj2 (truthy_true _) Hsne).
      cbn [map app andb]. now rewrite Eprice, Eqty.
    + apply buildPurchase_None in E.
      destruct E as [E|E]; rewrite E; cbn [truthy String.eqb negb andb];
        rewrite ?andb_false_r; reflexivity.
  - apply Forall_forall. intros r Hr.
    apply In_parseWebhookMessage in Hr. destruct Hr as [entry [_ Hr]].
    apply buildPurchase_Some in Hr.
    destruct Hr as (_ & _ & -> & -> & _).
    rewrite Hp, Hq. split; [|split].
    + now destruct (parseFloat (cleanPrice _)).
    + destruct (parseIntZ (cleanQuantity _)); [|reflexivity].
      apply isNaN_numberOfInteger.
    + destruct (parseIntZ (cleanQuantity _)) as [z|].
      * apply numberOfInteger_cases.
      * left. now exists 1.
  - repeat split; vm_compute; reflexivity.
Qed.

(** ** The classifier looks at the joined text *)

Lemma isSuccessfulCheckout_joined embed rawText :
  isSuccessfulCheckout embed rawText =
  hasTrigger (join " " (checkedParts embed rawText)).
Proof.
  unfold isSuccessfulCheckout, hasTrigger, checkedParts, triggerPhrases.
  cbn [existsb]. rewrite orb_false_r, orb_assoc.
  destruct embed as [e|]; [reflexivity|].
  destruct (truthy rawText) eqn:E; [reflexivity|].
  apply truthy_false in E. subst rawText. vm_compute; reflexivity.
Qed.

Lemma prefix_app (n a b : string) :
  String.prefix n a = true -> String.prefix n (a ++ b) = true.
Proof.
  revert a. induction n as [|c n IH]; intros a.
  - intros _. now destruct (a ++ b).
  - destruct a as [|d a]; simpl; [discriminate|].
    destruct (ascii_dec c d); [apply IH|discriminate].
Qed.

Lemma includes_app_r (a b n : string) :
  includes b n = true -> includes (a ++ b) n = true.
Proof.
  intros H. induction a as [|c a IH]; [exact H|].
  change (String.prefix n (String c a ++ b) || includes (a ++ b) n = true).
  rewrite IH. apply orb_true_r.
Qed.

Lemma includes_app_l (a b n : string) :
  includes a n = true -> includes (a ++ b) n = true.
Proof.
  induction a as [|c a IH].
  - intros H. destruct b as [|d b]; [exact H|].
    change (String.prefix n (String d b) || includes b n = true).
    change (String.prefix n "" || false = true) in H.
    rewrite orb_false_r in H.
    apply (prefix_app n "" (String d b)) in H.
    change (String.prefix n (String d b) = true) in H. now rewrite H.
  - intros H.
    change (String.prefix n (String c a) || includes a n = true) in H.
    change (String.prefix n (String c a ++ b) || includes (a ++ b) n = true).
    apply orb_true_iff in H. destruct H as [H|H].
    + now rewrite (prefix_app n (String c a) b H).
    + rewrite (IH H). apply orb_true_r.
Qed.

Lemma toLowerCase_app (a b : string) :
  toLowerCase (a ++ b) = toLowerCase a ++ toLowerCase b.
Proof. induction a as [|c a IH]; simpl; [reflexivity|now rewrite IH]. Qed.

Lemma hasTrigger_app_l (a b : string) :
  hasTrigger a = true -> hasTrigger (a ++ b) = true.
Proof.
  unfold hasTrigger. rewrite !existsb_exists. intros [p [Hp H]].
  exists p. split; [assumption|]. rewrite toLowerCase_app.
  now apply includes_app_l.
Qed.

Lemma hasTrigger_app_r (a b : string) :
  hasTrigger b = true -> hasTrigger (a ++ b) = true.
Proof.
  unfold hasTrigger. rewrite !existsb_exists. intros [p [Hp H]].
  exists p. split; [assumption|]. rewrite toLowerCase_app.
  now apply includes_app_r.
Qed.

(** A trigger phrase in one part is a trigger phrase in the joined text:
    the parts decide the classifier in this direction only. *)
Lemma trigger_in_part embed rawText part :
  In part (checkedParts embed rawText) ->
  hasTrigger part = true ->
  isSuccessfulCheckout embed rawText = true.
Proof.
  intros Hin Ht. rewrite isSuccessfulCheckout_joined.
  unfold checkedParts in *. cbn [join In] in *.
  destruct Hin as [<-|[<-|[<-|[<-|[]]]]].
  - now apply hasTrigger_app_l.
  - now apply hasTrigger_app_r, hasTrigger_app_r, hasTrigger_app_l.
  - do 4 apply hasTrigger_app_r. now apply hasTrigger_app_l.
  - now do 6 apply hasTrigger_app_r.
Qed.

(** C7, as the specification states it, fails on a title and a description
    that hold half a phrase each: no part contains a trigger phrase, yet
    the parts joined by a space do. *)
Lemma split_phrase_accepted :
  Forall (fun part => hasTrigger part = false)
    (checkedParts splitPhraseEmbed "") /\
  isSuccessfulCheckout splitPhraseEmbed "" = true.
Proof.
  split; [|vm_compute; reflexivity].
  repeat (constructor; [vm_compute; reflexivity|]). constructor.
Qed.

(** C7, amended. When the title, the description, the author name and the
    raw text, joined by single spaces, contain none of the three trigger
    phrases (case-insensitively), [isSuccessfulCheckout] returns false. *)
Theorem no_trigger_in_joined_text embed rawText :
  hasTrigger (join " " (checkedParts embed rawText)) = false ->
  isSuccessfulCheckout embed rawText = false.
Proof. intros H. now rewrite isSuccessfulCheckout_joined. Qed.

Lemma no_trigger_in_joined_text_witness :
  hasTrigger (join " " (checkedParts None "Checkout failed")) = false /\
  isSuccessfulCheckout None "Checkout failed" = false.
Proof.
  assert (H : hasTrigger (join " " (checkedParts None "Checkout failed"))
              = false) by (vm_compute; reflexivity).
  exact (conj H (no_trigger_in_joined_text None "Checkout failed" H)).
Defined.

(** C8. [parsePrice] reads 1234.56 in ["$1,234.56"] and in
    ["1234.56 USD"] and 12.00 in ["||$12.00||"], and gives 0 for a text
    whose cleansed form [parseFloat] does not read as a number. *)
Theorem parsePrice_examples :
  parsePrice "$1,234.56" = Dec 123456 (-2) /\
  parsePrice "1234.56 USD" = Dec 123456 (-2) /\
  parsePrice "||$12.00||" = Dec 1200 (-2) /\
  (forall s, parseFloat (cleanPrice s) = NaN -> parsePrice s = Dec 0 0).
Proof.
  repeat (split; [vm_compute; reflexivity|]).
  intros s H. unfold parsePrice. now rewrite H.
Qed.

Lemma parsePrice_examples_witness :
  parseFloat (cleanPrice "sold out") = NaN /\ parsePrice "sold out" = Dec 0 0.
Proof.
  assert (H : parseFloat (cleanPrice "sold out") = NaN)
    by (vm_compute; reflexivity).
  exact (conj H (proj2 (proj2 (proj2 parsePrice_examples)) "sold out" H)).
Defined.

(** C9. For the text of the end-to-end example, with an embed that has no
    fields or with no embed, [parseWebhookMessage] returns one record:
    product "Air Max", price 100, quantity 2, site "NikeStore", no sku, and
    the text itself as raw message text. *)
Theorem end_to_end_example :
  parseWebhookMessage None endToEndText = [endToEndRecord] /\
  (forall ti de au,
     parseWebhookMessage
       (Some {| title := ti; description := de; fields := None; author := au |})
       endToEndText = [endToEndRecord]) /\
  (forall ti de au,
     parseWebhookMessage
       (Some {| title := ti; description := de; fields := Some [];
                author := au |})
       endToEndText = [endToEndRecord]).
Proof.
  split; [vm_compute; reflexivity|].
  split; intros ti de au; vm_compute; reflexivity.
Qed.


(** * Further properties of the parser *)

(** ** The two passes over the raw text *)

Lemma linePairs_preserves (P : Fields -> Prop) :
  (forall parsed nextLine acc, P acc -> P (recordLinePair parsed nextLine acc)) ->
  forall lines acc, P acc -> P (linePairs lines acc).
Proof.
  intros Hstep lines.
  enough (H : forall n lines, (List.length lines <= n)%nat ->
                              forall acc, P acc -> P (linePairs lines acc))
    by (apply (H (List.length lines)); lia).
  clear lines. induction n as [|n IH]; intros lines Hlen acc Hacc.
  - destruct lines; [assumption|simpl in Hlen; lia].
  - destruct lines as [|line tl]; [assumption|]. simpl in Hlen |- *.
    destruct (parseFieldName line) as [parsed|].
    + destruct tl as [|nextLine tl']; [assumption|].
      destruct (parseFieldName nextLine).
      * apply IH; [simpl in *; lia|assumption].
      * apply IH; [simpl in *; lia|]. now apply Hstep.
    + apply IH; [lia|assumption].
Qed.

Lemma fold_recordColon_preserves (P : Fields -> Prop) :
  (forall acc m, P acc -> P (recordColon acc m)) ->
  forall ms acc, P acc -> P (fold_left recordColon ms acc).
Proof.
  intros Hstep ms. induction ms as [|m ms IH]; intros acc H; simpl;
    [assumption|]. now apply IH, Hstep.
Qed.

Lemma extractFieldsFromText_preserves (P : Fields -> Prop) :
  (forall parsed nextLine acc, P acc -> P (recordLinePair parsed nextLine acc)) ->
  (forall acc m, P acc -> P (recordColon acc m)) ->
  P noFields -> forall text, P (extractFieldsFromText text).
Proof.
  intros H1 H2 H0 text. unfold extractFieldsFromText.
  now apply fold_recordColon_preserves, linePairs_preserves.
Qed.

Lemma ensureItem_wf j sh its :
  fieldsWf {| shared := sh; items := its |} ->
  fieldsWf {| shared := sh; items := ensureItem j its |}.
Proof.
  intros (Hs & Hi & Hin). repeat split; simpl in *.
  - assumption.
  - now apply NoDup_ensureItem.
  - intros i m H. apply iget_ensureItem_Some in H. destruct H as [H| ->].
    + now apply (Hin i).
    + constructor.
Qed.

Lemma recordLinePair_wf parsed nextLine acc :
  fieldsWf acc -> fieldsWf (recordLinePair parsed nextLine acc).
Proof.
  intros Hwf. unfold recordLinePair.
  destruct (fieldMapping (baseName parsed)) as [mappedName|]; [|assumption].
  destruct (setHas PER_ITEM_FIELDS (baseName parsed)).
  - destruct acc as [sh its]. now apply setItemField_wf.
  - destruct (setHas SHARED_FIELDS (baseName parsed)); [|assumption].
    destruct (fhas mappedName (shared acc)); [assumption|].
    destruct Hwf as (Hs & Hi & Hin). repeat split; simpl; try assumption.
    apply NoDup_keys_set; [apply String.eqb_eq|assumption].
Qed.

Lemma recordColon_wf acc m : fieldsWf acc -> fieldsWf (recordColon acc m).
Proof.
  intros Hwf. unfold recordColon.
  destruct (parseFieldName (trim (group 1 m))) as [parsed|]; [|assumption].
  destruct (truthy (trim (group 2 m))); [|assumption].
  destruct (fieldMapping (baseName parsed)) as [mappedName|]; [|assumption].
  destruct (setHas PER_ITEM_FIELDS (baseName parsed)).
  - destruct acc as [sh its]. simpl.
    destruct (fhas mappedName
                (orEmpty (iget (index parsed) (ensureItem (index parsed) its)))).
    + now apply ensureItem_wf.
    + now apply setItemField_wf.
  - destruct (setHas SHARED_FIELDS (baseName parsed) &&
              negb (fhas mappedName (shared acc))); [|assumption].
    destruct Hwf as (Hs & Hi & Hin). repeat split; simpl; try assumption.
    apply NoDup_keys_set; [apply String.eqb_eq|assumption].
Qed.

Lemma extractFieldsFromText_wf text : fieldsWf (extractFieldsFromText text).
Proof.
  apply extractFieldsFromText_preserves.
  - apply recordLinePair_wf.
  - apply recordColon_wf.
  - apply noFields_wf.
Qed.

Lemma fhas_fget k m : fhas k m = false -> fget k m = None.
Proof.
  unfold fhas, JsMap.has. fold (fget k m). now destruct (fget k m).
Qed.

Lemma fhas_true k m : fhas k m = true -> exists v, fget k m = Some v.
Proof.
  unfold fhas, JsMap.has. fold (fget k m).
  destruct (fget k m); [eauto|discriminate].
Qed.

(** A value that is recorded stays through a line pair, if shared. *)
Lemma recordLinePair_shared_kept parsed nextLine acc k v :
  fget k (shared acc) = Some v ->
  fget k (shared (recordLinePair parsed nextLine acc)) = Some v.
Proof.
  intros H. unfold recordLinePair.
  destruct (fieldMapping (baseName parsed)) as [mappedName|]; [|assumption].
  destruct (setHas PER_ITEM_FIELDS (baseName parsed)); [assumption|].
  destruct (setHas SHARED_FIELDS (baseName parsed)); [|assumption].
  destruct (fhas mappedName (shared acc)) eqn:E; [assumption|]. simpl.
  rewrite fget_fset_other; [assumption|].
  intros ->. apply fhas_fget in E. congruence.
Qed.

(** A value that is recorded stays through a colon match, in any slot. *)
Lemma recordColon_kept acc m s v :
  lookupSlot s acc = Some v -> lookupSlot s (recordColon acc m) = Some v.
Proof.
  intros H. unfold recordColon.
  destruct (parseFieldName (trim (group 1 m))) as [parsed|]; [|assumption].
  destruct (truthy (trim (group 2 m))); [|assumption].
  destruct (fieldMapping (baseName parsed)) as [mappedName|]; [|assumption].
  destruct (setHas PER_ITEM_FIELDS (baseName parsed)).
  - destruct acc as [sh its]. destruct s as [k|i k]; [assumption|].
    cbn [lookupSlot items shared] in H |- *.
    destruct (fhas mappedName
                (orEmpty (iget (index parsed) (ensureItem (index parsed) its))))
      eqn:E.
    + now rewrite iget_ensureItem.
    + change (lookupSlot (ItemSlot i k)
                {| shared := sh;
                   items := setItemField (index parsed) mappedName
                              (trim (group 2 m))
                              (ensureItem (index parsed) its) |} = Some v).
      rewrite lookup_setItemField.
      destruct (Z.eqb_spec i (index parsed)) as [->|]; [|assumption].
      destruct (String.eqb_spec k mappedName) as [->|]; [|assumption].
      apply fhas_fget in E. rewrite iget_ensureItem in E. congruence.
  - destruct (setHas SHARED_FIELDS (baseName parsed)); [|assumption].
    destruct (fhas mappedName (shared acc)) eqn:E; [assumption|].
    destruct s as [k|i k]; [|assumption].
    cbn [lookupSlot items shared andb negb] in H |- *.
    rewrite fget_fset_other; [assumption|].
    intros ->. apply fhas_fget in E. congruence.
Qed.

Lemma keysWithin_ensureItem j sh its :
  keysWithin {| shared := sh; items := its |} ->
  keysWithin {| shared := sh; items := ensureItem j its |}.
Proof.
  intros [Hs Hi]. split; [exact Hs|]. cbn [items] in *.
  intros i k v. rewrite iget_ensureItem. apply Hi.
Qed.

Lemma keysWithin_setItemField j key val sh its :
  keysWithin {| shared := sh; items := its |} ->
  In key itemKeys ->
  keysWithin
    {| shared := sh; items := setItemField j key val (ensureItem j its) |}.
Proof.
  intros [Hs Hi] Hkey. split; [exact Hs|]. intros i k v.
  change (lookupSlot (ItemSlot i k)
            {| shared := sh;
               items := setItemField j key val (ensureItem j its) |} = Some v
          -> In k itemKeys).
  rewrite lookup_setItemField.
  destruct (Z.eqb_spec i j); simpl; [|apply Hi].
  destruct (String.eqb_spec k key) as [->|]; [|apply Hi].
  intros _. exact Hkey.
Qed.

Lemma keysWithin_fset key val acc :
  keysWithin acc ->
  In key sharedKeys ->
  keysWithin {| shared := fset key val (shared acc); items := items acc |}.
Proof.
  intros [Hs Hi] Hkey. split; [|exact Hi]. cbn [shared]. intros k v.
  destruct (String.eqb_spec k key) as [->|Hne].
  - intros _. exact Hkey.
  - rewrite fget_fset_other by assumption. apply Hs.
Qed.

Lemma recordLinePair_keys parsed nextLine acc :
  keysWithin acc -> keysWithin (recordLinePair parsed nextLine acc).
Proof.
  intros H. unfold recordLinePair.
  destruct (fieldMapping (baseName parsed)) as [mappedName|] eqn:Em;
    [|assumption].
  destruct (setHas PER_ITEM_FIELDS (baseName parsed)) eqn:Ep.
  - destruct acc as [sh its]. apply keysWithin_setItemField; [assumption|].
    now apply (item_label_key (baseName parsed)).
  - destruct (setHas SHARED_FIELDS (baseName parsed)) eqn:Es; [|assumption].
    destruct (fhas mappedName (shared acc)); [assumption|].
    apply keysWithin_fset; [assumption|].
    now apply (shared_label_key (baseName parsed)).
Qed.

Lemma recordColon_keys acc m : keysWithin acc -> keysWithin (recordColon acc m).
Proof.
  intros H. unfold recordColon.
  destruct (parseFieldName (trim (group 1 m))) as [parsed|]; [|assumption].
  destruct (truthy (trim (group 2 m))); [|assumption].
  destruct (fieldMapping (baseName parsed)) as [mappedName|] eqn:Em;
    [|assumption].
  destruct (setHas PER_ITEM_FIELDS (baseName parsed)) eqn:Ep.
  - destruct acc as [sh its]. cbn [items shared].
    destruct (fhas mappedName
                (orEmpty (iget (index parsed) (ensureItem (index parsed) its)))).
    + now apply keysWithin_ensureItem.
    + apply keysWithin_setItemField; [assumption|].
      now apply (item_label_key (baseName parsed)).
  - destruct (setHas SHARED_FIELDS (baseName parsed)) eqn:Es; [|assumption].
    destruct (fhas mappedName (shared acc)); [assumption|].
    apply keysWithin_fset; [assumption|].
    now apply (shared_label_key (baseName parsed)).
Qed.

Lemma extractFieldsFromText_keys text : keysWithin (extractFieldsFromText text).
Proof.
  apply extractFieldsFromText_preserves.
  - apply recordLinePair_keys.
  - apply recordColon_keys.
  - split; simpl; discriminate.
Qed.

(** X1. In the raw text the colon pass fills gaps only: a value that the
    line-pair pass has recorded, under a shared key or under a key of an
    item, is the value that [extractFieldsFromText] returns for it, whatever
    the colon matches of the text are. *)
Theorem colon_pass_fills_gaps text s v :
  lookupSlot s (linePairs (textLines text) noFields) = Some v ->
  lookupSlot s (extractFieldsFromText text) = Some v.
Proof.
  intros H. unfold extractFieldsFromText. fold (textLines text).
  apply (fold_recordColon_preserves (fun f => lookupSlot s f = Some v));
    [|assumption].
  intros acc m. apply recordColon_kept.
Qed.

Lemma colon_pass_fills_gaps_witness :
  lookupSlot (ItemSlot 0 "product")
    (extractFieldsFromText
       ("Product" ++ LF ++ "Shoe" ++ LF ++ "Product: Hat" ++ LF ++ "Site: Shop"))
    = Some "Shoe".
Proof.
  apply colon_pass_fills_gaps. vm_compute; reflexivity.
Defined.

(** X2. In the line-pair pass over the raw text a shared field keeps its
    first value: once a key of the shared map has a value, no later line
    pair changes it. *)
Theorem line_pairs_keep_shared lines acc k v :
  fget k (shared acc) = Some v ->
  fget k (shared (linePairs lines acc)) = Some v.
Proof.
  intros H.
  apply (linePairs_preserves (fun f => fget k (shared f) = Some v));
    [|assumption].
  intros parsed nextLine acc'. apply recordLinePair_shared_kept.
Qed.

Lemma line_pairs_keep_shared_witness :
  fget "site"
    (shared (linePairs ["Site"; "Second"; "Product"; "Shoe"]
               {| shared := [("site", "First")]; items := [] |}))
    = Some "First".
Proof. apply line_pairs_keep_shared. reflexivity. Defined.

(** ** The merged maps *)

Lemma keys_fold_mergeItem t e l acc i :
  In i (JsMap.keys (fold_left (mergeItem t e) l acc)) <->
  In i l \/ In i (JsMap.keys acc).
Proof.
  revert acc. induction l as [|j l IH]; intros acc; simpl; [tauto|].
  rewrite IH. unfold mergeItem, iset.
  rewrite (keys_set _ Z.eqb_eq). unfold JsMap.has.
  destruct (JsMap.get Z.eqb j acc) eqn:E.
  - apply (get_Some_keys _ Z.eqb_eq) in E.
    split; [intros [H|H]; auto|intros [[<-|H]|H]; auto].
  - rewrite in_app_iff. simpl. tauto.
Qed.

Lemma fold_mergeItem_nil t e l : fold_left (mergeItem t e) l [] = [] -> l = [].
Proof.
  destruct l as [|j l]; [reflexivity|]. intros H.
  assert (Hin : In j (JsMap.keys (fold_left (mergeItem t e) (j :: l) [])))
    by (apply keys_fold_mergeItem; left; now left).
  rewrite H in Hin. contradiction.
Qed.

Lemma iget_mergedItems embed rawText i :
  orEmpty (iget i (mergedItems embed rawText)) =
  mergedAt (items (extractFieldsFromText rawText)) (items (embedFields embed)) i.
Proof.
  unfold mergedItems.
  set (t := items (extractFieldsFromText rawText)).
  set (e := items (embedFields embed)).
  set (l := JsMap.setOf Z.eqb (JsMap.keys e ++ JsMap.keys t)).
  destruct (in_dec Z.eq_dec i l) as [Hin|Hnotin].
  - pose proof (fold_mergeItem_in t e l [] i Hin) as H.
    destruct (fold_left (mergeItem t e) l []); [discriminate H|].
    now rewrite H.
  - pose proof (fold_mergeItem_notin t e l [] i Hnotin) as H.
    assert (Ht : iget i t = None).
    { destruct (iget i t) eqn:E; [|reflexivity]. exfalso. apply Hnotin.
      apply (In_setOf _ Z.eqb_eq), in_or_app. right.
      now apply (get_Some_keys _ Z.eqb_eq i f). }
    assert (He : iget i e = None).
    { destruct (iget i e) eqn:E; [|reflexivity]. exfalso. apply Hnotin.
      apply (In_setOf _ Z.eqb_eq), in_or_app. left.
      now apply (get_Some_keys _ Z.eqb_eq i f). }
    unfold mergedAt. rewrite Ht, He. simpl.
    destruct (fold_left (mergeItem t e) l []) eqn:F.
    + simpl. now destruct (i =? 0).
    + rewrite H. reflexivity.
Qed.

Lemma NoDup_orEmpty f i :
  fieldsWf f -> NoDup (JsMap.keys (orEmpty (iget i (items f)))).
Proof.
  intros (_ & _ & H). destruct (iget i (items f)) eqn:E; simpl.
  - now apply (H i).
  - constructor.
Qed.

Lemma lookup_merged embed rawText s :
  lookupSlot s (merged embed rawText) =
  match lookupSlot s (embedFields embed) with
  | Some v => Some v
  | None => lookupSlot s (extractFieldsFromText rawText)
  end.
Proof.
  destruct s as [k|i k]; cbn [lookupSlot merged shared items].
  - rewrite fget_mergedShared. unfold fget.
    rewrite (get_ofEntries _ String.eqb_eq); [reflexivity|].
    apply extractFieldsFromText_wf.
  - rewrite iget_mergedItems. unfold mergedAt, fget.
    rewrite (get_ofEntries_app _ String.eqb_eq).
    rewrite !(get_ofEntries _ String.eqb_eq); [reflexivity| |].
    + apply NoDup_orEmpty, extractFieldsFromText_wf.
    + apply NoDup_orEmpty, embedFields_wf.
Qed.

(** X3. The merge of [parseWebhookMessage] is the text overlaid by the
    embed: under every shared key and under every key of every item, the
    merged maps hold the value of the embed fields when these give one, and
    the value of the raw text otherwise. *)
Theorem merge_is_embed_over_text embed rawText s :
  lookupSlot s (merged embed rawText) =
  match lookupSlot s (embedFields embed) with
  | Some v => Some v
  | None => lookupSlot s (extractFieldsFromText rawText)
  end.
Proof.
  destruct s as [k|i k]; cbn [lookupSlot merged shared items].
  - rewrite fget_mergedShared. unfold fget.
    rewrite (get_ofEntries _ String.eqb_eq); [reflexivity|].
    apply extractFieldsFromText_wf.
  - rewrite iget_mergedItems. unfold mergedAt, fget.
    rewrite (get_ofEntries_app _ String.eqb_eq).
    rewrite !(get_ofEntries _ String.eqb_eq); [reflexivity| |].
    + apply NoDup_orEmpty, extractFieldsFromText_wf.
    + apply NoDup_orEmpty, embedFields_wf.
Qed.

(** X21. An embed field whose label is in [PER_ITEM_FIELDS] or in
    [SHARED_FIELDS] decides its key when no later embed field writes the
    same key (and item index): its trimmed value is the value of the merged
    maps whatever the raw text gives for the key, and the records show it:
    every record for a shared key, and for a per-item key the record of
    the one item of that index (when that item has a record). *)
Theorem embed_field_wins embed pre f post s rawText :
  fields embed = Some (pre ++ f :: post)%list ->
  slotOf f = Some s ->
  Forall (fun g => slotOf g <> Some s) post ->
  lookupSlot s (merged (Some embed) rawText) = Some (trim (value f)) /\
  match s with
  | SharedSlot key =>
      In key sharedKeys /\
      parseWebhookMessage (Some embed) rawText =
        flat_map (recordsOf (mergedShared (Some embed) rawText) rawText)
          (sortedEntries (mergedItems (Some embed) rawText)) /\
      Forall (fun r => sharedOut key r
                       = orNull (stripSpoilerTags (trim (value f))))
        (parseWebhookMessage (Some embed) rawText)
  | ItemSlot idx key =>
      In key itemKeys /\
      exists before itemFields after,
        sortedEntries (mergedItems (Some embed) rawText)
          = (before ++ (idx, itemFields) :: after)%list /\
        (forall other,
           In (idx, other) (sortedEntries (mergedItems (Some embed) rawText))
           -> other = itemFields) /\
        fget key itemFields = Some (trim (value f)) /\
        parseWebhookMessage (Some embed) rawText =
          (flat_map (recordsOf (mergedShared (Some embed) rawText) rawText)
             before ++
           recordsOf (mergedShared (Some embed) rawText) rawText
             (idx, itemFields) ++
           flat_map (recordsOf (mergedShared (Some embed) rawText) rawText)
             after)%list /\
        Forall (itemShows key (trim (value f)))
          (recordsOf (mergedShared (Some embed) rawText) rawText
             (idx, itemFields))
  end.
Proof.
  intros Hf Hs Hpost.
  assert (Hv : lookupSlot s (embedFields (Some embed))
               = Some (trim (value f))).
  { unfold embedFields. rewrite Hf, fold_left_app. simpl.
    rewrite fold_recordEmbedField_miss by assumption.
    now apply recordEmbedField_hit. }
  clear Hf Hs Hpost. revert Hv.
  generalize (trim (value f)) as v. generalize (Some embed) as e.
  clear embed f pre post. intros embed v Hv.
  destruct s as [key|idx key]; simpl in Hv.
  - assert (Hm : fget key (mergedShared embed rawText) = Some v)
      by now rewrite fget_mergedShared, Hv.
    split; [exact Hm|].
    assert (Hk : In key sharedKeys)
      by exact (proj1 (embedFields_keys embed) key v Hv).
    split; [exact Hk|].
    split; [apply parseWebhookMessage_flat_map|].
    apply Forall_forall. intros r Hr.
    apply In_parseWebhookMessage in Hr. destruct Hr as [entry [_ Hr]].
    apply buildPurchase_Some in Hr.
    destruct Hr as (_ & _ & _ & _ & _ & _ & _ & Hr).
    unfold sharedPart in Hr. injection Hr as E1 E2 E3 E4 E5 E6 E7 E8 _.
    simpl in Hk.
    repeat (destruct Hk as [<-|Hk];
            [unfold sharedOut; simpl String.eqb; cbv iota;
             rewrite ?E1, ?E2, ?E3, ?E4, ?E5, ?E6, ?E7, ?E8, Hm, orElse_empty;
             reflexivity|]).
    contradiction.
  - destruct (iget idx (items (embedFields embed))) as [m|] eqn:Em;
      [|discriminate]. simpl in Hv.
    pose proof (iget_mergedItems_embed embed rawText idx m Em) as Hi.
    pose proof (fget_mergedAt_embed (items (extractFieldsFromText rawText))
                  _ idx m key v (proj2 (proj2 (embedFields_wf embed))) Em Hv)
      as Hk.
    split; [simpl; now rewrite Hi|].
    assert (Hkey : In key itemKeys).
    { apply (proj2 (embedFields_keys embed) idx key v). now rewrite Em. }
    split; [exact Hkey|].
    assert (Hin : In (idx, mergedAt (items (extractFieldsFromText rawText))
                             (items (embedFields embed)) idx)
                    (sortedEntries (mergedItems embed rawText))).
    { apply In_sortedEntries, (get_In _ Z.eqb_eq). exact Hi. }
    destruct (in_split _ _ Hin) as (before & after & Hsplit).
    exists before, (mergedAt (items (extractFieldsFromText rawText))
                      (items (embedFields embed)) idx), after.
    split; [exact Hsplit|]. split.
    { intros other Ho. apply (proj1 (In_sortedEntries _ _)) in Ho.
      apply (In_get _ Z.eqb_eq) in Ho; [|apply NoDup_mergedItems].
      fold (iget idx (mergedItems embed rawText)) in Ho.
      rewrite Hi in Ho. now injection Ho as <-. }
    split; [exact Hk|]. split.
    { rewrite parseWebhookMessage_flat_map, Hsplit, flat_map_app.
      reflexivity. }
    unfold recordsOf. cbn [snd].
    destruct (buildPurchase _ rawText _) as [r|] eqn:Hr; [|constructor].
    constructor; [|constructor].
    apply buildPurchase_Some in Hr.
    destruct Hr as (Hp & _ & Hpr & Hq & Hsku & _).
    simpl in Hkey.
    repeat (destruct Hkey as [<-|Hkey];
            [unfold itemShows; simpl String.eqb; cbv iota;
             try rewrite Hk in Hp; try rewrite Hk in Hpr;
             try rewrite Hk in Hq; try rewrite Hk in Hsku; assumption|]).
    contradiction.
Qed.

Lemma embed_field_wins_witness :
  lookupSlot (ItemSlot 0 "product") (extractFieldsFromText conflictText)
    = Some "TextShoe" /\
  map product (parseWebhookMessage conflictEmbed conflictText)
    = ["EmbedShoe"] /\
  lookupSlot (ItemSlot 0 "product") (merged conflictEmbed conflictText)
    = Some (trim "EmbedShoe").
Proof.
  split; [vm_compute; reflexivity|].
  split; [vm_compute; reflexivity|].
  apply (embed_field_wins
           {| title := Some "Successful Checkout"; description := None;
              fields := Some [ field "Site" "EmbedShop";
                               field "Product" "EmbedShoe" ];
              author := None |}
           [field "Site" "EmbedShop"] (field "Product" "EmbedShoe") []
           (ItemSlot 0 "product") conflictText eq_refl).
  - vm_compute; reflexivity.
  - constructor.
Defined.

(** X4. The merged maps hold canonical keys only: a shared value is under
    one of the eight shared keys and a value of an item under [product],
    [price], [quantity] or [sku]; a label such as [buy now], which is in
    neither set, adds no key: the pass over the embed fields and the two
    passes over the text leave both maps as they are on such a label, and
    an embed field with such a label can be left out of the fields. *)
Theorem merged_keys_canonical embed rawText :
  (forall k v, fget k (mergedShared embed rawText) = Some v ->
               In k sharedKeys) /\
  (forall i k v,
     fget k (orEmpty (iget i (mergedItems embed rawText))) = Some v ->
     In k itemKeys) /\
  (forall acc f parsed,
     parseFieldName (name f) = Some parsed -> inNeitherSet parsed ->
     recordEmbedField acc f = acc) /\
  (forall parsed nextLine acc,
     inNeitherSet parsed -> recordLinePair parsed nextLine acc = acc) /\
  (forall acc m parsed,
     parseFieldName (trim (group 1 m)) = Some parsed -> inNeitherSet parsed ->
     recordColon acc m = acc) /\
  (forall pre f post acc parsed,
     parseFieldName (name f) = Some parsed -> inNeitherSet parsed ->
     fold_left recordEmbedField (pre ++ f :: post)%list acc
     = fold_left recordEmbedField (pre ++ post)%list acc).
Proof.
  assert (He : forall acc f parsed,
            parseFieldName (name f) = Some parsed -> inNeitherSet parsed ->
            recordEmbedField acc f = acc).
  { intros acc f parsed Hp [Hi Hs]. unfold recordEmbedField.
    rewrite Hp, Hi, Hs. now destruct (fieldMapping (baseName parsed)). }
  split; [|split; [|split; [exact He|split; [|split]]]].
  - intros k v H.
    change (lookupSlot (SharedSlot k) (merged embed rawText) = Some v) in H.
    rewrite lookup_merged in H.
    destruct (lookupSlot (SharedSlot k) (embedFields embed)) eqn:E.
    + exact (proj1 (embedFields_keys embed) k s E).
    + exact (proj1 (extractFieldsFromText_keys rawText) k v H).
  - intros i k v H.
    change (lookupSlot (ItemSlot i k) (merged embed rawText) = Some v) in H.
    rewrite lookup_merged in H.
    destruct (lookupSlot (ItemSlot i k) (embedFields embed)) eqn:E.
    + exact (proj2 (embedFields_keys embed) i k s E).
    + exact (proj2 (extractFieldsFromText_keys rawText) i k v H).
  - intros parsed nextLine acc [Hi Hs]. unfold recordLinePair.
    rewrite Hi, Hs. now destruct (fieldMapping (baseName parsed)).
  - intros acc m parsed Hp [Hi Hs]. unfold recordColon.
    rewrite Hp, Hi, Hs. cbn [andb].
    destruct (truthy (trim (group 2 m))); [|reflexivity].
    now destruct (fieldMapping (baseName parsed)).
  - intros pre f post acc parsed Hp Hn.
    rewrite !fold_left_app. cbn [fold_left].
    now rewrite (He _ f parsed Hp Hn).
Qed.

Lemma merged_keys_canonical_witness :
  fget "order_id"
    (mergedShared (embedOf [field "Order Number" "A1"; field "Buy Now" "x"])
       "") = Some "A1" /\
  In "order_id" sharedKeys /\
  recordEmbedField noFields (field "Buy Now" "x") = noFields.
Proof.
  assert (H : fget "order_id"
                (mergedShared
                   (embedOf [field "Order Number" "A1"; field "Buy Now" "x"])
                   "") = Some "A1") by (vm_compute; reflexivity).
  split; [exact H|]. split.
  - exact (proj1 (merged_keys_canonical _ _) "order_id" "A1" H).
  - apply (proj1 (proj2 (proj2 (merged_keys_canonical None "")))
             noFields (field "Buy Now" "x")
             {| baseName := "buy now"; index := 0 |}).
    + vm_compute; reflexivity.
    + split; reflexivity.
Defined.

(** X5. The items of [parseWebhookMessage] are the item indices seen in
    the embed fields or in the raw text, each once; when neither has any,
    there is the one item of index 0. *)
Theorem merged_item_indices embed rawText i :
  NoDup (JsMap.keys (mergedItems embed rawText)) /\
  (In i (JsMap.keys (mergedItems embed rawText)) <->
   In i (JsMap.keys (items (embedFields embed))) \/
   In i (JsMap.keys (items (extractFieldsFromText rawText))) \/
   (items (embedFields embed) = [] /\
    items (extractFieldsFromText rawText) = [] /\ i = 0)).
Proof.
  split; [apply NoDup_mergedItems|].
  unfold mergedItems.
  set (t := items (extractFieldsFromText rawText)).
  set (e := items (embedFields embed)).
  set (l := JsMap.setOf Z.eqb (JsMap.keys e ++ JsMap.keys t)).
  assert (Hl : forall j, In j l <-> In j (JsMap.keys e) \/ In j (JsMap.keys t)).
  { intros j. unfold l. rewrite (In_setOf _ Z.eqb_eq), in_app_iff. tauto. }
  pose proof (keys_fold_mergeItem t e l [] i) as Hk.
  destruct (fold_left (mergeItem t e) l []) as [|x its] eqn:F.
  - apply fold_mergeItem_nil in F.
    assert (He : e = []).
    { destruct e as [|[j f] e']; [reflexivity|]. exfalso.
      assert (Hj : In j l) by (apply Hl; left; now left).
      now rewrite F in Hj. }
    assert (Ht : t = []).
    { destruct t as [|[j f] t']; [reflexivity|]. exfalso.
      assert (Hj : In j l) by (apply Hl; right; now left).
      now rewrite F in Hj. }
    rewrite He, Ht. simpl. intuition congruence.
  - rewrite Hk, Hl. simpl (JsMap.keys []). simpl (In i []).
    split; [tauto|]. intros [H|[H|(He & Ht & _)]]; [tauto|tauto|].
    exfalso.
    assert (Hx : In (fst x) l \/ In (fst x) (JsMap.keys (V := FieldMap) []))
      by (apply (keys_fold_mergeItem t e l []); rewrite F; now left).
    destruct Hx as [Hx|[]].
    apply Hl in Hx. rewrite He, Ht in Hx. simpl in Hx. tauto.
Qed.

(** ** The records *)

Lemma length_insertSorted {A} (cmp : A -> A -> Z) x l :
  List.length (insertSorted cmp x l) = S (List.length l).
Proof.
  induction l as [|y l IH]; simpl; [reflexivity|].
  destruct (cmp y x <? 0); simpl; [now rewrite IH|reflexivity].
Qed.

Lemma length_sortedEntries its :
  List.length (sortedEntries its) = List.length its.
Proof.
  unfold sortedEntries, sortBy.
  induction its as [|x its IH]; simpl; [reflexivity|].
  now rewrite length_insertSorted, IH.
Qed.

Lemma length_flat_map_recordsOf sh raw entries :
  (List.length (flat_map (recordsOf sh raw) entries) <= List.length entries)%nat.
Proof.
  induction entries as [|x entries IH]; simpl; [lia|].
  rewrite length_app. unfold recordsOf at 1.
  destruct (buildPurchase sh raw (snd x)); simpl; lia.
Qed.

(** X6. Without a site there is no record: when neither the embed fields
    nor the raw text give a value for the site, [parseWebhookMessage]
    returns the empty list, whatever products they give. *)
Theorem no_site_no_record embed rawText :
  lookupSlot (SharedSlot "site") (embedFields embed) = None ->
  lookupSlot (SharedSlot "site") (extractFieldsFromText rawText) = None ->
  parseWebhookMessage embed rawText = [].
Proof.
  intros He Ht.
  assert (Hs : fget "site" (mergedShared embed rawText) = None).
  { change (lookupSlot (SharedSlot "site") (merged embed rawText) = None).
    now rewrite lookup_merged, He. }
  rewrite parseWebhookMessage_flat_map.
  induction (sortedEntries (mergedItems embed rawText)) as [|x l IH];
    [reflexivity|].
  simpl. rewrite IH. unfold recordsOf.
  assert (Hb : buildPurchase (mergedShared embed rawText) rawText (snd x)
               = None).
  { apply buildPurchase_None. right. rewrite Hs. vm_compute; reflexivity. }
  now rewrite Hb.
Qed.

Lemma no_site_no_record_witness :
  parseWebhookMessage
    (embedOf [field "Product" "Shoe"; field "Price" "$10"])
    ("Product" ++ LF ++ "Shoe") = [].
Proof. apply no_site_no_record; vm_compute; reflexivity. Defined.

(** X7. [parseWebhookMessage] returns at most one record for each item
    index seen in the embed fields or in the raw text, and at most one
    record when neither has an item index. *)
Theorem one_record_per_item embed rawText :
  (List.length (parseWebhookMessage embed rawText)
   <= List.length (mergedItems embed rawText))%nat /\
  (items (embedFields embed) = [] ->
   items (extractFieldsFromText rawText) = [] ->
   (List.length (parseWebhookMessage embed rawText) <= 1)%nat).
Proof.
  assert (H : (List.length (parseWebhookMessage embed rawText)
               <= List.length (mergedItems embed rawText))%nat).
  { rewrite parseWebhookMessage_flat_map.
    rewrite <- length_sortedEntries. apply length_flat_map_recordsOf. }
  split; [exact H|].
  intros He Ht. unfold mergedItems in H. rewrite He, Ht in H.
  exact H.
Qed.

Lemma one_record_per_item_witness :
  (List.length (parseWebhookMessage None ("Site" ++ LF ++ "Shop")) <= 1)%nat.
Proof.
  apply (proj2 (one_record_per_item None ("Site" ++ LF ++ "Shop")));
    vm_compute; reflexivity.
Defined.

(** ** The classifier *)

(** X8. A trigger phrase in the title, in the description, in the author
    name or in the raw text makes [isSuccessfulCheckout] return true, in
    any letter case. *)
Theorem trigger_in_one_part embed rawText part :
  In part (checkedParts embed rawText) ->
  hasTrigger part = true ->
  isSuccessfulCheckout embed rawText = true.
Proof.
  intros Hin Ht. rewrite isSuccessfulCheckout_joined.
  unfold checkedParts in *. cbn [join In] in *.
  destruct Hin as [<-|[<-|[<-|[<-|[]]]]].
  - now apply hasTrigger_app_l.
  - now apply hasTrigger_app_r, hasTrigger_app_r, hasTrigger_app_l.
  - do 4 apply hasTrigger_app_r. now apply hasTrigger_app_l.
  - now do 6 apply hasTrigger_app_r.
Qed.

Lemma trigger_in_one_part_witness :
  isSuccessfulCheckout None "Order update: CHECKOUT SUCCESS for Air Max" = true.
Proof.
  apply (trigger_in_one_part None _
           "Order update: CHECKOUT SUCCESS for Air Max").
  - simpl. tauto.
  - vm_compute; reflexivity.
Defined.

Lemma lowerChar_idem c : lowerChar (lowerChar c) = lowerChar c.
Proof. destruct c as [[] [] [] [] [] [] [] []]; reflexivity. Qed.

Lemma isSpace_lowerChar c : isSpace (lowerChar c) = isSpace c.
Proof. destruct c as [[] [] [] [] [] [] [] []]; reflexivity. Qed.

Lemma toLowerCase_idem s : toLowerCase (toLowerCase s) = toLowerCase s.
Proof.
  induction s as [|c s IH]; simpl; [reflexivity|].
  now rewrite lowerChar_idem, IH.
Qed.

Lemma toLowerCase_empty s : toLowerCase s = "" -> s = "".
Proof. destruct s; [reflexivity|discriminate]. Qed.

(** X9. [isSuccessfulCheckout] does not depend on the letter case of the
    raw text: two raw texts that are equal up to case get the same answer,
    with the same embed. *)
Theorem classifier_ignores_case embed rawText1 rawText2 :
  toLowerCase rawText1 = toLowerCase rawText2 ->
  isSuccessfulCheckout embed rawText1 = isSuccessfulCheckout embed rawText2.
Proof.
  intros H. rewrite !isSuccessfulCheckout_joined.
  unfold hasTrigger, checkedParts. cbn [join].
  now rewrite !toLowerCase_app, H.
Qed.

Lemma classifier_ignores_case_witness :
  isSuccessfulCheckout None "SUCCESSFUL CHECKOUT"
  = isSuccessfulCheckout None "Successful Checkout".
Proof. apply classifier_ignores_case. vm_compute; reflexivity. Defined.

(** ** Labels and cleansed values *)

Lemma trimStart_lower s : toLowerCase (trimStart s) = trimStart (toLowerCase s).
Proof.
  induction s as [|c s IH]; simpl; [reflexivity|].
  rewrite isSpace_lowerChar. now destruct (isSpace c).
Qed.

Lemma trimEnd_lower s : toLowerCase (trimEnd s) = trimEnd (toLowerCase s).
Proof.
  induction s as [|c s IH]; simpl; [reflexivity|].
  rewrite <- IH, isSpace_lowerChar.
  destruct (trimEnd s); simpl; [now destruct (isSpace c)|reflexivity].
Qed.

Lemma trim_lower s : toLowerCase (trim s) = trim (toLowerCase s).
Proof. unfold trim. now rewrite trimEnd_lower, trimStart_lower. Qed.

Lemma trimStart_head s :
  match trimStart s with
  | "" => True
  | String c _ => isSpace c = false
  end.
Proof.
  induction s as [|c s IH]; simpl; [exact I|].
  destruct (isSpace c) eqn:E; [exact IH|exact E].
Qed.

Lemma trimEnd_idem s : trimEnd (trimEnd s) = trimEnd s.
Proof.
  induction s as [|c s IH]; simpl; [reflexivity|].
  destruct (trimEnd s) as [|d t] eqn:E.
  - destruct (isSpace c) eqn:Ec; simpl; [reflexivity|now rewrite Ec].
  - change (trimEnd (String c (String d t))) with
      (match trimEnd (String d t) with
       | "" => if isSpace c then "" else String c ""
       | u => String c u
       end).
    now rewrite IH.
Qed.

Lemma trimStart_trimEnd u :
  match u with "" => True | String c _ => isSpace c = false end ->
  trimStart (trimEnd u) = trimEnd u.
Proof.
  destruct u as [|c u]; [reflexivity|]. intros Hc. simpl.
  destruct (trimEnd u); rewrite ?Hc; simpl; now rewrite Hc.
Qed.

Lemma trim_idem s : trim (trim s) = trim s.
Proof.
  unfold trim. rewrite trimStart_trimEnd by apply trimStart_head.
  apply trimEnd_idem.
Qed.

(** X10. [parseFieldName] ignores the letter case of a label and the white
    space around it: the label trimmed, or in lower case, resolves as the
    label itself does. *)
Theorem parseFieldName_ignores_case_and_space label :
  parseFieldName (trim label) = parseFieldName label /\
  parseFieldName (toLowerCase label) = parseFieldName label.
Proof.
  unfold parseFieldName. split.
  - now rewrite <- !trim_lower, trim_idem.
  - now rewrite toLowerCase_idem.
Qed.

Lemma length_app_string a b :
  String.length (a ++ b) = (String.length a + String.length b)%nat.
Proof. induction a as [|c a IH]; simpl; [reflexivity|now rewrite IH]. Qed.

Lemma append_empty_r a : a ++ "" = a.
Proof. induction a as [|c a IH]; simpl; [reflexivity|now rewrite IH]. Qed.

Lemma substring_app a b : substring 0 (String.length a) (a ++ b) = a.
Proof. induction a as [|c a IH]; simpl; [now destruct b|now rewrite IH]. Qed.

Lemma spoilerTail_run b y cs :
  run spoilerTail Some (MState b y cs) =
  if String.eqb y "||" then Some (MState (Some "|"%char) "" cs) else None.
Proof.
  unfold spoilerTail, Lit. cbn [run rest caps].
  destruct y as [|c1 y]; [reflexivity|].
  cbn [String.eqb]. rewrite (Ascii.eqb_sym c1).
  destruct (Ascii.eqb_spec "|" c1) as [<-|]; [|reflexivity].
  cbn [rest caps].
  destruct y as [|c2 y]; [reflexivity|].
  cbn [String.eqb]. rewrite (Ascii.eqb_sym c2).
  destruct (Ascii.eqb_spec "|" c2) as [<-|]; [|reflexivity].
  cbn [rest caps atEol andb].
  destruct y; reflexivity.
Qed.

(** The lazy group of [spoilerPattern] stops where two bars end the input. *)
Lemma star_lazy_hit k R x bef cs :
  (forall b y, k (MState b y cs) = if String.eqb y "||" then Some R else None) ->
  star_lazy k anyChar bef cs (x ++ "||") = Some R.
Proof.
  intros Hk. revert bef. induction x as [|d x IH]; intros bef.
  - simpl. rewrite Hk. reflexivity.
  - cbn [append star_lazy]. rewrite Hk.
    destruct (String.eqb_spec (String d (x ++ "||")) "||") as [E|_].
    + exfalso. apply (f_equal String.length) in E. simpl in E.
      rewrite length_app_string in E. simpl in E. lia.
    + apply IH.
Qed.

Lemma star_lazy_miss k w bef cs :
  (forall b y, y <> "||" -> k (MState b y cs) = None) ->
  (forall y, w <> y ++ "||") ->
  star_lazy k anyChar bef cs w = None.
Proof.
  intros Hk. revert bef. induction w as [|d w IH]; intros bef Hw.
  - simpl. rewrite Hk; [reflexivity|discriminate].
  - cbn [star_lazy]. rewrite Hk by (intros E; apply (Hw ""); exact E).
    cbn [anyChar]. apply IH. intros y E. apply (Hw (String d y)).
    simpl. now rewrite E.
Qed.

Lemma matchAt_spoiler c1 c2 c w :
  matchAt spoilerPattern None (String c1 (String c2 (String c w))) =
  if Ascii.eqb "|" c1 then
    if Ascii.eqb "|" c2 then
      star_lazy
        (fun st' =>
           run spoilerTail Some
             (MState (before st') (rest st')
                ((1%nat, consumed (MState (Some c2) (String c w) []) st')
                   :: caps st')))
        anyChar (Some c) [] w
    else None
  else None.
Proof. reflexivity. Qed.

Lemma spoiler_continuation c2 c w b y :
  run spoilerTail Some
    (MState b y [(1%nat, consumed (MState (Some c2) (String c w) [])
                           (MState b y []))]) =
  if String.eqb y "||"
  then Some (MState (Some "|"%char) ""
               [(1%nat, substring 0 (String.length w - 1) (String c w))])
  else None.
Proof.
  rewrite spoilerTail_run.
  destruct (String.eqb_spec y "||") as [->|]; [|reflexivity].
  unfold consumed. cbn [rest String.length].
  replace (S (String.length w) - 2)%nat with (String.length w - 1)%nat by lia.
  reflexivity.
Qed.

Lemma replaceFirst_go_not_start to c s :
  replaceFirst_go spoilerPattern to (Some c) s = s.
Proof.
  revert c. induction s as [|d s IH]; intros c; [reflexivity|].
  change (String d (replaceFirst_go spoilerPattern to (Some d) s) = String d s).
  now rewrite IH.
Qed.

Lemma replaceFirst_spoiler to v :
  replaceFirst spoilerPattern to v =
  match matchAt spoilerPattern None v with
  | Some st => to (caps st) ++ rest st
  | None => v
  end.
Proof.
  unfold replaceFirst. destruct v as [|c v]; [reflexivity|].
  cbn [replaceFirst_go].
  destruct (matchAt spoilerPattern None (String c v)); [reflexivity|].
  now rewrite replaceFirst_go_not_start.
Qed.

Lemma matchAt_spoiler_None v :
  (forall x, x <> "" -> v <> "||" ++ x ++ "||") ->
  matchAt spoilerPattern None v = None.
Proof.
  intros Hv. destruct v as [|c1 [|c2 [|c w]]].
  - reflexivity.
  - change (matchAt spoilerPattern None (String c1 "")) with
      (if Ascii.eqb "|" c1 then @None mstate else None).
    now destruct (Ascii.eqb "|" c1).
  - change (matchAt spoilerPattern None (String c1 (String c2 ""))) with
      (if Ascii.eqb "|" c1
       then if Ascii.eqb "|" c2 then @None mstate else None
       else None).
    now destruct (Ascii.eqb "|" c1), (Ascii.eqb "|" c2).
  - rewrite matchAt_spoiler.
    destruct (Ascii.eqb_spec "|" c1) as [<-|]; [|reflexivity].
    destruct (Ascii.eqb_spec "|" c2) as [<-|]; [|reflexivity].
    apply star_lazy_miss.
    + intros b y Hy. rewrite spoiler_continuation.
      now destruct (String.eqb_spec y "||").
    + intros y E. apply (Hv (String c y)); [discriminate|]. now rewrite E.
Qed.

Lemma stripSpoilerTags_plain v :
  (forall x, x <> "" -> v <> "||" ++ x ++ "||") ->
  stripSpoilerTags v = trim v.
Proof.
  intros Hv. unfold stripSpoilerTags.
  now rewrite replaceFirst_spoiler, matchAt_spoiler_None.
Qed.

Lemma stripSpoilerTags_wrapped x :
  x <> "" -> stripSpoilerTags ("||" ++ x ++ "||") = trim x.
Proof.
  intros Hx. destruct x as [|c x]; [congruence|].
  unfold stripSpoilerTags. rewrite replaceFirst_spoiler.
  change ("||" ++ String c x ++ "||")
    with (String "|" (String "|" (String c (x ++ "||")))).
  rewrite matchAt_spoiler. cbn [Ascii.eqb Bool.eqb].
  rewrite (star_lazy_hit _
             (MState (Some "|"%char) ""
                [(1%nat, substring 0 (String.length (x ++ "||") - 1)
                           (String c (x ++ "||")))])).
  - cbn [caps rest group Nat.eqb]. rewrite length_app_string.
    cbn [String.length].
    replace (String.length x + 2 - 1)%nat
      with (String.length (String c x)) by (simpl; lia).
    change (String c (x ++ "||")) with (String c x ++ "||").
    now rewrite substring_app, append_empty_r.
  - intros b y. apply spoiler_continuation.
Qed.

(** X11. [stripSpoilerTags] unwraps a value that two bars open and close,
    whatever is between them (bars and line ends too) as long as it is not
    empty, and trims what it finds; any other value is trimmed only; and
    the result is always trimmed. *)
Theorem stripSpoilerTags_unwraps :
  (forall x, x <> "" -> stripSpoilerTags ("||" ++ x ++ "||") = trim x) /\
  (forall v, (forall x, x <> "" -> v <> "||" ++ x ++ "||") ->
             stripSpoilerTags v = trim v) /\
  (forall v, trim (stripSpoilerTags v) = stripSpoilerTags v).
Proof.
  split; [|split].
  - apply stripSpoilerTags_wrapped.
  - apply stripSpoilerTags_plain.
  - intros v. unfold stripSpoilerTags. apply trim_idem.
Qed.

Lemma stripSpoilerTags_unwraps_witness :
  stripSpoilerTags ("||" ++ " Air | Max " ++ "||") = trim " Air | Max " /\
  stripSpoilerTags " Air Max||" = trim " Air Max||".
Proof.
  split.
  - apply (proj1 stripSpoilerTags_unwraps). discriminate.
  - apply (proj1 (proj2 stripSpoilerTags_unwraps)).
    intros x _ E. inversion E.
Defined.

(** ** Prices and quantities *)

Section ScanFacts.
Context {A : Type}.
Variable r : regex.
Variable emit : list (nat * string) -> list A.
Variable keep : ascii -> list A.

Lemma scan_nomatch bef c s :
  matchAt r bef (String c s) = None ->
  scan r emit keep bef (String c s) 0 = (keep c ++ scan r emit keep (Some c) s 0)%list.
Proof. intros H. cbn [scan]. now rewrite H. Qed.

Lemma scan_nomatch_end bef :
  matchAt r bef "" = None -> scan r emit keep bef "" 0 = [].
Proof. intros H. cbn [scan]. now rewrite H. Qed.

Lemma scan_match_one bef c s st :
  matchAt r bef (String c s) = Some st -> rest st = s ->
  scan r emit keep bef (String c s) 0 = (emit (caps st) ++ scan r emit keep (Some c) s 0)%list.
Proof.
  intros H E. cbn [scan]. rewrite H, E. cbn [String.length].
  replace (S (String.length s) - String.length s)%nat with 1%nat by lia.
  reflexivity.
Qed.
End ScanFacts.

Lemma replaceAll_Chr p s :
  replaceAll (Chr p) remove s = keepChars (fun c => negb (p c)) s.
Proof.
  unfold replaceAll. generalize (@None ascii).
  induction s as [|c s IH]; intros bef.
  - reflexivity.
  - destruct (p c) eqn:E.
    + rewrite (scan_match_one _ _ _ _ _ _ (MState (Some c) s [])).
      * cbn [app caps remove list_ascii_of_string keepChars]. rewrite E. apply IH.
      * unfold matchAt. cbn [run rest caps]. now rewrite E.
      * reflexivity.
    + rewrite scan_nomatch.
      * cbn [app string_of_list_ascii keepChars]. rewrite E. cbn [negb]. now rewrite IH.
      * unfold matchAt. cbn [run rest caps]. now rewrite E.
Qed.

Lemma replaceAll_nomatch r to (P : string -> Prop) :
  (forall c s, P (String c s) -> P s) ->
  (forall bef s, P s -> matchAt r bef s = None) ->
  forall s, P s -> replaceAll r to s = s.
Proof.
  intros Htl Hno s. unfold replaceAll. generalize (@None ascii).
  induction s as [|c s IH]; intros bef Hs.
  - rewrite scan_nomatch_end; [reflexivity|now apply Hno].
  - rewrite scan_nomatch by now apply Hno.
    cbn [app string_of_list_ascii]. rewrite IH; [reflexivity|]. now apply (Htl c).
Qed.

Lemma ci_nonletter l c : isUpper c || isLower c = false -> ci l c = false.
Proof. unfold ci. now intros ->. Qed.

Lemma matchAt_currencyCode bef s :
  allChars plainChar s = true -> matchAt currencyCode bef s = None.
Proof.
  intros H. unfold matchAt, currencyCode.
  destruct s as [|c s].
  - reflexivity.
  - cbn [allChars] in H. apply andb_true_iff in H. destruct H as [H _].
    unfold plainChar in H. apply andb_true_iff in H. destruct H as [Hs Hl].
    apply negb_true_iff in Hs, Hl.
    cbn [run before caps rest star_greedy]. rewrite Hs.
    cbn [run Word first_of rest caps before].
    rewrite !(ci_nonletter _ c Hl). reflexivity.
Qed.

Lemma matchAt_qtyPattern bef s :
  allChars plainChar s = true -> matchAt qtyPattern bef s = None.
Proof.
  intros H. unfold matchAt, qtyPattern.
  destruct s as [|c s].
  - reflexivity.
  - cbn [allChars] in H. apply andb_true_iff in H. destruct H as [H _].
    unfold plainChar in H. apply andb_true_iff in H. destruct H as [Hs Hl].
    apply negb_true_iff in Hl.
    cbn [run Word first_of rest caps before].
    rewrite !(ci_nonletter _ c Hl). reflexivity.
Qed.

Lemma allChars_impl (p q : ascii -> bool) s :
  (forall c, p c = true -> q c = true) ->
  allChars p s = true -> allChars q s = true.
Proof.
  intros Hpq. induction s as [|c s IH]; simpl; [reflexivity|].
  intros H. apply andb_true_iff in H. destruct H as [Hc Hs].
  now rewrite (Hpq c Hc), IH.
Qed.

Lemma allChars_app p a b :
  allChars p (a ++ b) = allChars p a && allChars p b.
Proof.
  induction a as [|c a IH]; simpl; [reflexivity|].
  now rewrite IH, andb_assoc.
Qed.

Lemma allChars_keepChars p q s :
  allChars p s = true -> allChars p (keepChars q s) = true.
Proof.
  induction s as [|c s IH]; simpl; [reflexivity|].
  intros H. apply andb_true_iff in H. destruct H as [Hc Hs].
  destruct (q c); simpl; [rewrite Hc|]; now apply IH.
Qed.

Lemma allChars_keep_self p s : allChars p (keepChars p s) = true.
Proof.
  induction s as [|c s IH]; simpl; [reflexivity|].
  destruct (p c) eqn:E; simpl; [now rewrite E|assumption].
Qed.

Lemma trimStart_nospace s :
  allChars (fun c => negb (isSpace c)) s = true -> trimStart s = s.
Proof.
  destruct s as [|c s]; simpl; [reflexivity|].
  intros H. apply andb_true_iff in H. destruct H as [Hc _].
  apply negb_true_iff in Hc. now rewrite Hc.
Qed.

Lemma trimEnd_nospace s :
  allChars (fun c => negb (isSpace c)) s = true -> trimEnd s = s.
Proof.
  induction s as [|c s IH]; simpl; [reflexivity|].
  intros H. apply andb_true_iff in H. destruct H as [Hc Hs].
  apply negb_true_iff in Hc. rewrite (IH Hs), Hc. now destruct s.
Qed.

Lemma trim_nospace s :
  allChars (fun c => negb (isSpace c)) s = true -> trim s = s.
Proof.
  intros H. unfold trim. rewrite trimStart_nospace by assumption.
  now apply trimEnd_nospace.
Qed.

Lemma takeWhile_app p d r :
  allChars p d = true ->
  match r with "" => True | String c _ => p c = false end ->
  takeWhile p (d ++ r) = d /\ dropWhile p (d ++ r) = r.
Proof.
  intros Hd Hr. induction d as [|c d IH]; simpl.
  - destruct r as [|c r]; [now split|]. simpl. now rewrite Hr.
  - simpl in Hd. apply andb_true_iff in Hd. destruct Hd as [Hc Hd].
    rewrite Hc. destruct (IH Hd) as [-> ->]. now split.
Qed.

Lemma digit_facts c :
  isDigit c = true ->
  isSpace c = false /\ isUpper c || isLower c = false /\
  isChar 45 c = false /\ isChar 43 c = false /\ isChar 46 c = false /\
  Ascii.eqb "I" c = false /\ Ascii.eqb "|" c = false.
Proof.
  destruct c as [[] [] [] [] [] [] [] []]; intros H;
    try discriminate H; repeat split; reflexivity.
Qed.

Lemma digitsValue_nonneg d : allChars isDigit d = true -> 0 <= digitsValue d.
Proof.
  unfold digitsValue.
  assert (H : forall acc, 0 <= acc -> allChars isDigit d = true ->
                          0 <= digits_go acc d); [|apply H; lia].
  induction d as [|c d IH]; intros acc Hacc Hd.
  - exact Hacc.
  - cbn [allChars] in Hd. apply andb_true_iff in Hd. destruct Hd as [Hc Hd].
    cbn [digits_go]. apply IH; [|exact Hd].
    assert (0 <= digitOf c); [|lia].
    destruct c as [[] [] [] [] [] [] [] []]; try discriminate Hc;
      vm_compute; discriminate.
Qed.

Lemma parseIntZ_digits d :
  allChars isDigit d = true -> d <> "" ->
  parseIntZ d = Some (digitsValue d).
Proof.
  intros Hd Hne. destruct d as [|c d]; [congruence|].
  pose proof Hd as Hd'. cbn [allChars] in Hd'.
  apply andb_true_iff in Hd'. destruct Hd' as [Hc _].
  destruct (digit_facts c Hc) as (Hs & _ & Hm & Hp & _).
  unfold parseIntZ. cbn [trimStart]. rewrite Hs.
  cbn [readSign]. rewrite Hm, Hp.
  destruct (takeWhile_app isDigit (String c d) "" Hd I) as [Ht _].
  rewrite append_empty_r in Ht. rewrite Ht. reflexivity.
Qed.

Lemma parseInt_digits d :
  allChars isDigit d = true -> d <> "" ->
  parseInt d = numberOfInteger (digitsValue d).
Proof.
  intros Hd Hne. unfold parseInt. now rewrite parseIntZ_digits.
Qed.

Lemma parseFloat_decimal d fp :
  allChars isDigit d = true -> d <> "" -> allChars isDigit fp = true ->
  parseFloat (d ++ "." ++ fp)
  = numberOfDecimal (digitsValue (d ++ fp)) (- Z.of_nat (String.length fp)).
Proof.
  intros Hd Hne Hfp. destruct d as [|c d]; [congruence|].
  pose proof Hd as Hd'. cbn [allChars] in Hd'.
  apply andb_true_iff in Hd'. destruct Hd' as [Hc _].
  destruct (digit_facts c Hc) as (Hs & _ & Hm & Hp & _ & HI & _).
  unfold parseFloat. 
  change (String c d ++ "." ++ fp) with (String c (d ++ "." ++ fp)).
  cbn [trimStart]. rewrite Hs. cbn [readSign]. rewrite Hm, Hp.
  cbn [String.prefix]. destruct (ascii_dec "I" c) as [E|_].
  { subst c. discriminate Hc. }
  change (String c (d ++ "." ++ fp)) with (String c d ++ String "." fp).
  destruct (takeWhile_app isDigit (String c d) (String "." fp) Hd eq_refl) as [-> ->].
  change (isChar 46 ".") with true. cbv iota.
  destruct (takeWhile_app isDigit fp "" Hfp I) as [Ht Hdr].
  rewrite append_empty_r in Ht, Hdr. rewrite Ht, Hdr.
  cbn [truthy String.eqb negb orb readExponent signed]. 
  reflexivity.
Qed.

Lemma parseFloat_integer d :
  allChars isDigit d = true -> d <> "" ->
  parseFloat d = numberOfDecimal (digitsValue d) 0.
Proof.
  intros Hd Hne. destruct d as [|c d]; [congruence|].
  pose proof Hd as Hd'. cbn [allChars] in Hd'.
  apply andb_true_iff in Hd'. destruct Hd' as [Hc _].
  destruct (digit_facts c Hc) as (Hs & _ & Hm & Hp & _ & HI & _).
  unfold parseFloat. cbn [trimStart]. rewrite Hs. cbn [readSign]. rewrite Hm, Hp.
  cbn [String.prefix]. destruct (ascii_dec "I" c) as [E|_].
  { subst c. discriminate Hc. }
  destruct (takeWhile_app isDigit (String c d) "" Hd I) as [Ht Hdr].
  rewrite append_empty_r in Ht, Hdr. rewrite Ht, Hdr.
  cbn [truthy String.eqb negb orb readExponent signed String.length]. 
  now rewrite append_empty_r.
Qed.

Lemma keepChars_app p a b : keepChars p (a ++ b) = keepChars p a ++ keepChars p b.
Proof.
  induction a as [|c a IH]; simpl; [reflexivity|].
  destruct (p c); simpl; now rewrite IH.
Qed.

Lemma keepChars_ext_on (cls p q : ascii -> bool) s :
  (forall c, cls c = true -> p c = q c) ->
  allChars cls s = true -> keepChars p s = keepChars q s.
Proof.
  intros H. induction s as [|c s IH]; simpl; [reflexivity|].
  intros Hs. apply andb_true_iff in Hs. destruct Hs as [Hc Hs].
  now rewrite (H c Hc), (IH Hs).
Qed.

Lemma keepChars_all p s : allChars p s = true -> keepChars p s = s.
Proof.
  induction s as [|c s IH]; simpl; [reflexivity|].
  intros H. apply andb_true_iff in H. destruct H as [Hc Hs].
  now rewrite Hc, (IH Hs).
Qed.

Lemma keepChars_keepChars p q s :
  keepChars q (keepChars p s) = keepChars (fun c => p c && q c) s.
Proof.
  induction s as [|c s IH]; simpl; [reflexivity|].
  destruct (p c); simpl; [|assumption]. destruct (q c); now rewrite IH.
Qed.

Lemma quantityChar_facts c :
  quantityChar c = true -> negb (ci "x" c) = isDigit c.
Proof. destruct c as [[] [] [] [] [] [] [] []]; intros H; try discriminate H; reflexivity. Qed.

Lemma digits_plain d : allChars isDigit d = true -> allChars plainChar d = true.
Proof.
  apply allChars_impl. intros c Hc.
  destruct (digit_facts c Hc) as (Hs & Hl & _). unfold plainChar. now rewrite Hs, Hl.
Qed.

Lemma plain_nospace s :
  allChars plainChar s = true -> allChars (fun c => negb (isSpace c)) s = true.
Proof.
  apply allChars_impl. intros c Hc. unfold plainChar in Hc.
  now apply andb_true_iff in Hc.
Qed.

Lemma allChars_tail p c s : allChars p (String c s) = true -> allChars p s = true.
Proof. simpl. intros H. now apply andb_true_iff in H. Qed.

(** X12. [parseQuantity] reads a text of digits and letters [x] or [X] as
    the number that its digits spell, the letters being dropped wherever
    they are: the binary64 nearest to that integer ([Infinity] beyond the
    largest one), which is the integer itself below [2^53]. *)
Theorem parseQuantity_digits s :
  allChars quantityChar s = true ->
  keepChars isDigit s <> "" ->
  parseQuantity s = numberOfInteger (digitsValue (keepChars isDigit s)) /\
  (digitsValue (keepChars isDigit s) < 2 ^ 53 ->
   parseQuantity s = Dec (digitsValue (keepChars isDigit s)) 0).
Proof.
  intros Hs Hne.
  assert (E : parseQuantity s
              = numberOfInteger (digitsValue (keepChars isDigit s))).
  { unfold parseQuantity, cleanQuantity.
    rewrite replaceAll_Chr.
    rewrite (keepChars_ext_on quantityChar _ isDigit s quantityChar_facts Hs).
    pose proof (allChars_keep_self isDigit s) as Hd.
    rewrite (replaceAll_nomatch qtyPattern remove
               (fun s => allChars plainChar s = true)
               (allChars_tail plainChar)
               (fun bef s H => matchAt_qtyPattern bef s H))
      by now apply digits_plain.
    rewrite trim_nospace by now apply plain_nospace, digits_plain.
    rewrite parseInt_digits by assumption.
    now rewrite isNaN_numberOfInteger. }
  split; [exact E|].
  intros Hlt. rewrite E. apply numberOfInteger_exact.
  pose proof (digitsValue_nonneg _ (allChars_keep_self isDigit s)). lia.
Qed.

Lemma amountChar_facts c :
  amountChar c = true ->
  negb (isChar 36 c || isChar 163 c || isChar 165 c) && negb (Ascii.eqb "," c)
  = isDigit c /\ isSpace c = false /\ Ascii.eqb "|" c = false.
Proof.
  destruct c as [[] [] [] [] [] [] [] []]; intros H; try discriminate H;
    repeat split; reflexivity.
Qed.

Lemma cleanPrice_amount a r :
  allChars amountChar a = true -> keepChars isDigit a <> "" ->
  allChars isDigit r = true \/ (exists fp, r = "." ++ fp /\ allChars isDigit fp = true) ->
  cleanPrice (a ++ r) = keepChars isDigit a ++ r.
Proof.
  intros Ha Hne Hr.
  assert (Hrp : allChars plainChar r = true).
  { destruct Hr as [Hr|[fp [-> Hfp]]]; [now apply digits_plain|].
    cbn [append allChars]. now rewrite (digits_plain fp Hfp). }
  assert (Hrk : keepChars (fun c => negb (isChar 36 c || isChar 163 c || isChar 165 c)
                                    && negb (Ascii.eqb "," c)) r = r).
  { apply keepChars_all.
    destruct Hr as [Hr|[fp [-> Hfp]]].
    - revert Hr. apply allChars_impl. intros c Hc.
      destruct (amountChar_facts c) as [E _]; [unfold amountChar; now rewrite Hc|].
      now rewrite E.
    - cbn [append allChars]. change (_ && _ && allChars _ fp = true) with
        (allChars (fun c => negb (isChar 36 c || isChar 163 c || isChar 165 c)
                                    && negb (Ascii.eqb "," c)) fp = true).
      revert Hfp. apply allChars_impl. intros c Hc.
      destruct (amountChar_facts c) as [E _]; [unfold amountChar; now rewrite Hc|].
      now rewrite E. }
  assert (Hns : allChars (fun c => negb (isSpace c)) (a ++ r) = true).
  { rewrite allChars_app, (plain_nospace r Hrp), andb_true_r.
    revert Ha. apply allChars_impl. intros c Hc.
    destruct (amountChar_facts c Hc) as (_ & -> & _). reflexivity. }
  unfold cleanPrice.
  rewrite stripSpoilerTags_plain.
  2:{ intros x _ E. destruct a as [|c a]; [now contradiction Hne|].
      cbn [allChars] in Ha. apply andb_true_iff in Ha. destruct Ha as [Hc _].
      destruct (amountChar_facts c Hc) as (_ & _ & Hb).
      injection E as E _. subst c. discriminate Hb. }
  rewrite (trim_nospace _ Hns).
  unfold currencySign, Lit. rewrite !replaceAll_Chr, keepChars_keepChars.
  rewrite keepChars_app, Hrk.
  rewrite (keepChars_ext_on amountChar _ isDigit a
             (fun c H => proj1 (amountChar_facts c H)) Ha).
  assert (Hp : allChars plainChar (keepChars isDigit a ++ r) = true).
  { rewrite allChars_app, Hrp, andb_true_r.
    apply digits_plain, allChars_keep_self. }
  rewrite (replaceAll_nomatch currencyCode remove
             (fun s => allChars plainChar s = true)
             (allChars_tail plainChar)
             (fun bef s H => matchAt_currencyCode bef s H)) by exact Hp.
  now apply trim_nospace, plain_nospace.
Qed.

(** X13. [parsePrice] reads an amount written with digits, thousands
    commas and currency signs [$], [£] or [¥], with or without a fraction
    after a point, as the decimal number that its digits spell: the
    binary64 nearest to that decimal ([Infinity] beyond the largest one),
    which the decimal itself identifies when it has at most 15 significant
    digits and at most 307 of them after the point. *)
Theorem parsePrice_amount a fp :
  allChars amountChar a = true -> keepChars isDigit a <> "" ->
  allChars isDigit fp = true ->
  parsePrice a = numberOfDecimal (digitsValue (keepChars isDigit a)) 0 /\
  parsePrice (a ++ "." ++ fp)
  = numberOfDecimal (digitsValue (keepChars isDigit a ++ fp))
      (- Z.of_nat (String.length fp)) /\
  (digitsValue (keepChars isDigit a ++ fp) < 10 ^ 15 ->
   (String.length fp <= 307)%nat ->
   parsePrice (a ++ "." ++ fp)
   = Dec (digitsValue (keepChars isDigit a ++ fp))
       (- Z.of_nat (String.length fp))).
Proof.
  intros Ha Hne Hfp.
  assert (E1 : parsePrice a
               = numberOfDecimal (digitsValue (keepChars isDigit a)) 0).
  { unfold parsePrice.
    assert (E : cleanPrice a = keepChars isDigit a).
    { pose proof (cleanPrice_amount a "" Ha Hne (or_introl eq_refl)) as E.
      now rewrite !append_empty_r in E. }
    rewrite E, parseFloat_integer;
      [now rewrite isNaN_numberOfDecimal|apply allChars_keep_self|assumption]. }
  assert (E2 : parsePrice (a ++ "." ++ fp)
               = numberOfDecimal (digitsValue (keepChars isDigit a ++ fp))
                   (- Z.of_nat (String.length fp))).
  { unfold parsePrice. rewrite (cleanPrice_amount a ("." ++ fp) Ha Hne).
    - rewrite parseFloat_decimal;
        [now rewrite isNaN_numberOfDecimal|apply allChars_keep_self
        |assumption|assumption].
    - right. now exists fp. }
  split; [exact E1|]. split; [exact E2|].
  intros Hlt Hlen. rewrite E2. apply numberOfDecimal_kept; [|lia].
  assert (Hd : allChars isDigit (keepChars isDigit a ++ fp) = true).
  { rewrite allChars_app, allChars_keep_self. exact Hfp. }
  pose proof (digitsValue_nonneg _ Hd). lia.
Qed.

Lemma parseQuantity_digits_witness :
  parseQuantity "x12" = Dec 12 0 /\
  parseQuantity "9007199254740993x" = Dec 9007199254740992 0 /\
  parseQuantity (nines 400) = Infinity false.
Proof.
  split; [|split].
  - apply (proj2 (parseQuantity_digits "x12" eq_refl ltac:(discriminate))).
    vm_compute; reflexivity.
  - exact (proj1 (parseQuantity_digits "9007199254740993x" eq_refl
                    ltac:(discriminate))).
  - exact (proj1 (parseQuantity_digits (nines 400) eq_refl
                    ltac:(discriminate))).
Defined.

Lemma parsePrice_amount_witness :
  parsePrice ("$1,234" ++ "." ++ "5") = Dec 12345 (-1) /\
  parsePrice "9,007,199,254,740,993" = Dec 9007199254740992 0.
Proof.
  split.
  - apply (proj2 (proj2 (parsePrice_amount "$1,234" "5" eq_refl
                           ltac:(discriminate) eq_refl))).
    + vm_compute; reflexivity.
    + vm_compute. lia.
  - exact (proj1 (parsePrice_amount "9,007,199,254,740,993" "" eq_refl
                    ltac:(discriminate) eq_refl)).
Defined.

(** ** Numbered labels *)

Lemma numberedPattern_eq :
  numberedPattern = (Bol false ;; Grp 1 (Plus false labelChar) ;; numberedTail)%re.
Proof. reflexivity. Qed.

Lemma letter_facts c :
  isLower c = true ->
  isSpace c = false /\ Ascii.eqb "(" c = false /\ lowerChar c = c.
Proof.
  destruct c as [[] [] [] [] [] [] [] []]; intros H; try discriminate H;
    repeat split; reflexivity.
Qed.

Lemma space_facts c :
  isSpace c = true -> Ascii.eqb "(" c = false /\ lowerChar c = c.
Proof.
  destruct c as [[] [] [] [] [] [] [] []]; intros H; try discriminate H;
    repeat split; reflexivity.
Qed.

Lemma digit_lower c : isDigit c = true -> lowerChar c = c /\ Ascii.eqb ")" c = false.
Proof.
  destruct c as [[] [] [] [] [] [] [] []]; intros H; try discriminate H;
    repeat split; reflexivity.
Qed.

Lemma numberedDigits_miss b0 c s cs :
  Ascii.eqb "(" c = false ->
  run numberedDigits Some (MState b0 (String c s) cs) = None.
Proof.
  intros H. unfold numberedDigits, Lit. cbn [run rest]. now rewrite H.
Qed.

(** Greedy white space before a letter: the tail fails. *)
Lemma numberedTail_miss y tl bef cs :
  endsInLetter y = true -> y <> "" ->
  star_greedy (run numberedDigits Some) isSpace bef cs (y ++ tl) = None.
Proof.
  revert bef. induction y as [|c y IH]; intros bef Hy Hne; [congruence|].
  cbn [append star_greedy].
  destruct y as [|c' y].
  - cbn [endsInLetter] in Hy. destruct (letter_facts c Hy) as (Hs & Hp & _).
    rewrite Hs. now apply numberedDigits_miss.
  - change (endsInLetter (String c (String c' y)))
      with (labelChar c && endsInLetter (String c' y)) in Hy.
    apply andb_true_iff in Hy. destruct Hy as [Hc Hy].
    destruct (isSpace c) eqn:Es.
    + rewrite IH by (assumption || discriminate).
      apply numberedDigits_miss. now destruct (space_facts c Es).
    + unfold labelChar in Hc. rewrite Es, orb_false_r in Hc.
      apply numberedDigits_miss. now destruct (letter_facts c Hc).
Qed.

Lemma star_greedy_all k p R d c r bef cs :
  allChars p d = true -> p c = false ->
  (forall b0, k (MState b0 (String c r) cs) = Some R) ->
  star_greedy k p bef cs (d ++ String c r) = Some R.
Proof.
  intros Hd Hc Hk. revert bef. induction d as [|e d IH]; intros bef.
  - cbn [append star_greedy]. now rewrite Hc.
  - cbn [allChars] in Hd. apply andb_true_iff in Hd. destruct Hd as [He Hd].
    cbn [append star_greedy]. rewrite He. now rewrite (IH Hd).
Qed.

Lemma numberedDigits_hit b0 d cs :
  allChars isDigit d = true -> d <> "" ->
  run numberedDigits Some (MState b0 ("(" ++ d ++ ")") cs)
  = Some (MState (Some ")"%char) "" ((2%nat, d) :: cs)).
Proof.
  intros Hd Hne. destruct d as [|d1 d]; [congruence|].
  cbn [allChars] in Hd. apply andb_true_iff in Hd. destruct Hd as [H1 Hd].
  unfold numberedDigits, Plus, Lit.
  change ("(" ++ String d1 d ++ ")") with (String "(" (String d1 (d ++ ")"))).
  cbn [run rest caps before Ascii.eqb Bool.eqb]. rewrite H1.
  cbn [run rest caps before].
  apply star_greedy_all; [assumption|reflexivity|].
  intros b1. cbn [rest caps before Ascii.eqb Bool.eqb atEol].
  unfold consumed. cbn [rest String.length].
  rewrite length_app_string. cbn [String.length].
  replace (S (String.length d + 1) - 1)%nat with (String.length (String d1 d)) by (simpl; lia).
  change (String d1 (d ++ ")")) with (String d1 d ++ ")").
  now rewrite substring_app.
Qed.

Lemma endsInLetter_tail c y : endsInLetter (String c y) = true -> endsInLetter y = true.
Proof.
  destruct y as [|c' y]; [reflexivity|].
  change (endsInLetter (String c (String c' y)))
    with (labelChar c && endsInLetter (String c' y)).
  intros H. now apply andb_true_iff in H.
Qed.

Lemma endsInLetter_head c y : endsInLetter (String c y) = true -> labelChar c = true.
Proof.
  destruct y as [|c' y].
  - cbn [endsInLetter]. unfold labelChar. now intros ->.
  - change (endsInLetter (String c (String c' y)))
      with (labelChar c && endsInLetter (String c' y)).
    intros H. now apply andb_true_iff in H.
Qed.

Lemma star_lazy_label k R tl y bef cs :
  (forall b0 z, endsInLetter z = true -> z <> "" ->
                k (MState b0 (z ++ tl) cs) = None) ->
  (forall b0, k (MState b0 tl cs) = Some R) ->
  endsInLetter y = true ->
  star_lazy k labelChar bef cs (y ++ tl) = Some R.
Proof.
  intros Hmiss Hhit. revert bef. induction y as [|c y IH]; intros bef Hy.
  - cbn [append]. destruct tl; cbn [star_lazy]; now rewrite Hhit.
  - pose proof (Hmiss bef (String c y) Hy ltac:(discriminate)) as Hm.
    cbn [append] in Hm. cbn [append star_lazy]. rewrite Hm.
    rewrite (endsInLetter_head c y Hy).
    apply IH. now apply endsInLetter_tail in Hy.
Qed.

Lemma trimEnd_app a r : trimEnd r = r -> r <> "" -> trimEnd (a ++ r) = a ++ r.
Proof.
  intros Hr Hne. induction a as [|c a IH]; [exact Hr|].
  cbn [append trimEnd]. rewrite IH.
  destruct (a ++ r) eqn:E; [|reflexivity].
  destruct a; [simpl in E; congruence|discriminate E].
Qed.

Lemma trimEnd_endsInLetter b : endsInLetter b = true -> trimEnd b = b.
Proof.
  induction b as [|c b IH]; [reflexivity|]. intros H.
  cbn [trimEnd]. rewrite (IH (endsInLetter_tail c b H)).
  destruct b as [|c' b]; [|reflexivity].
  cbn [endsInLetter] in H. destruct (letter_facts c H) as (-> & _). reflexivity.
Qed.

Lemma toLowerCase_fixed (cls : ascii -> bool) s :
  (forall c, cls c = true -> lowerChar c = c) ->
  allChars cls s = true -> toLowerCase s = s.
Proof.
  intros H. induction s as [|c s IH]; simpl; [reflexivity|].
  intros Hs. apply andb_true_iff in Hs. destruct Hs as [Hc Hs].
  now rewrite (H c Hc), (IH Hs).
Qed.

Lemma endsInLetter_allChars b : endsInLetter b = true -> allChars labelChar b = true.
Proof.
  induction b as [|c b IH]; [reflexivity|]. intros H.
  cbn [allChars]. rewrite (endsInLetter_head c b H).
  now rewrite (IH (endsInLetter_tail c b H)).
Qed.

Lemma labelChar_lower c : labelChar c = true -> lowerChar c = c.
Proof.
  unfold labelChar. intros H. apply orb_true_iff in H. destruct H as [H|H].
  - now destruct (letter_facts c H) as (_ & _ & ?).
  - now destruct (space_facts c H).
Qed.

Lemma numbered_lower b d :
  endsInLetter b = true ->
  (match b with String c _ => isLower c = true | "" => False end) ->
  allChars isDigit d = true ->
  trim (toLowerCase (b ++ " (" ++ d ++ ")")) = b ++ " (" ++ d ++ ")".
Proof.
  intros Hb Hh Hd.
  rewrite !toLowerCase_app.
  rewrite (toLowerCase_fixed labelChar b labelChar_lower (endsInLetter_allChars b Hb)).
  rewrite (toLowerCase_fixed isDigit d (fun c H => proj1 (digit_lower c H)) Hd).
  change (toLowerCase " (") with " (". change (toLowerCase ")") with ")".
  unfold trim.
  destruct b as [|c b]; [contradiction|].
  cbn [append trimStart]. destruct (letter_facts c Hh) as (-> & _).
  apply (trimEnd_app (String c b) (" (" ++ d ++ ")")); [|discriminate].
  apply (trimEnd_app " (" (d ++ ")")); [|destruct d; discriminate].
  apply (trimEnd_app d ")"); [reflexivity|discriminate].
Qed.

Lemma consumed_app a r bef1 cs1 bef2 cs2 :
  consumed (MState bef1 (a ++ r) cs1) (MState bef2 r cs2) = a.
Proof.
  unfold consumed. cbn [rest]. rewrite length_app_string.
  replace (String.length a + String.length r - String.length r)%nat
    with (String.length a) by lia.
  apply substring_app.
Qed.

Lemma matchAt_numbered b d :
  endsInLetter b = true -> b <> "" ->
  allChars isDigit d = true -> d <> "" ->
  matchAt numberedPattern None (b ++ " (" ++ d ++ ")")
  = Some (MState (Some ")"%char) "" [(2%nat, d); (1%nat, b)]).
Proof.
  intros Hb Hne Hd Hdne. destruct b as [|c1 b]; [congruence|].
  rewrite numberedPattern_eq. unfold matchAt, Plus.
  cbn [append run atBol before rest caps].
  rewrite (endsInLetter_head c1 b Hb). cbn [run before rest caps].
  apply star_lazy_label.
  - intros b0 z Hz Hzne. cbn [before rest caps]. unfold numberedTail.
    cbn [run before rest caps]. now apply numberedTail_miss.
  - intros b0. cbn [before rest caps]. unfold numberedTail.
    cbn [run before rest caps append star_greedy].
    change (isSpace " ") with true. change (isSpace "(") with false. cbv iota.
    change (String "(" (d ++ ")")) with ("(" ++ d ++ ")").
    rewrite numberedDigits_hit by assumption.
    repeat f_equal.
    exact (consumed_app (String c1 b) (" (" ++ d ++ ")") _ _ _ _).
  - now apply endsInLetter_tail in Hb.
Qed.

Lemma numbered_label_general b d :
  endsInLetter b = true ->
  (match b with String c _ => isLower c = true | "" => False end) ->
  isMapped b = true ->
  allChars isDigit d = true -> d <> "" ->
  parseFieldName (b ++ " (" ++ d ++ ")")
  = Some {| baseName := b; index := toDouble (toDouble (digitsValue d) - 1) |}.
Proof.
  intros Hb Hh Hm Hd Hdne.
  assert (Hbne : b <> "") by (destruct b; [contradiction|discriminate]).
  unfold parseFieldName. rewrite numbered_lower by assumption.
  unfold regexMatch.
  assert (Hs : search numberedPattern None (b ++ " (" ++ d ++ ")")
               = Some [(2%nat, d); (1%nat, b)]).
  { destruct (b ++ " (" ++ d ++ ")") eqn:E; cbn [search];
      rewrite <- E, matchAt_numbered by assumption; reflexivity. }
  rewrite Hs. cbn [group Nat.eqb].
  assert (Ht : trim b = b).
  { unfold trim. destruct b as [|c b]; [contradiction|].
    cbn [trimStart]. destruct (letter_facts c Hh) as (-> & _).
    now apply trimEnd_endsInLetter. }
  rewrite Ht, Hm. unfold zeroBased.
  now rewrite parseIntZ_digits.
Qed.

(** X14. A label of the table made of letters and spaces, followed by a
    space and a number in parentheses, resolves to that label with the
    number minus one as item index (as a binary64; the number itself minus
    one as long as it is below 2^53). *)
Theorem numbered_label_resolves b d :
  In b numberableLabels ->
  allChars isDigit d = true -> d <> "" ->
  parseFieldName (b ++ " (" ++ d ++ ")")
  = Some {| baseName := b; index := toDouble (toDouble (digitsValue d) - 1) |}
  /\ ((digitsValue d < 2 ^ 53)%Z ->
      toDouble (toDouble (digitsValue d) - 1) = (digitsValue d - 1)%Z).
Proof.
  intros Hb Hd Hne. split.
  - assert (Hall : forallb
                     (fun b => endsInLetter b && isMapped b &&
                               match b with
                               | String c _ => isLower c
                               | "" => false
                               end) numberableLabels = true)
      by (vm_compute; reflexivity).
    rewrite forallb_forall in Hall. specialize (Hall b Hb).
    apply andb_true_iff in Hall. destruct Hall as [Hall Hh].
    apply andb_true_iff in Hall. destruct Hall as [He Hm].
    apply numbered_label_general; try assumption.
    destruct b; [discriminate Hh|exact Hh].
  - intros Hlt. rewrite (toDouble_small (digitsValue d)) by assumption.
    apply toDouble_small. lia.
Qed.

Lemma numbered_label_resolves_witness :
  parseFieldName ("order id" ++ " (" ++ "12" ++ ")")
  = Some {| baseName := "order id";
            index := toDouble (toDouble (digitsValue "12") - 1) |}.
Proof.
  apply (proj1 (numbered_label_resolves "order id" "12"
                  ltac:(vm_compute; tauto) eq_refl ltac:(discriminate))).
Defined.

(** * Properties of the listener *)

Lemma setHas_In xs x : setHas xs x = true <-> In x xs.
Proof.
  unfold setHas. rewrite existsb_exists. split.
  - intros [y [Hy E]]. apply String.eqb_eq in E. now subst.
  - intros H. exists x. split; [assumption|apply String.eqb_refl].
Qed.

Lemma setHas_false xs x : setHas xs x = false <-> ~ In x xs.
Proof.
  rewrite <- setHas_In. destruct (setHas xs x); split; congruence.
Qed.

Lemma length_payloadsFrom i total messageId rawText purchaseDate items :
  List.length (payloadsFrom i total messageId rawText purchaseDate items)
  = List.length items.
Proof.
  revert i. induction items as [|x items IH]; intros i; simpl;
    [reflexivity|now rewrite IH].
Qed.

(** X15. [processMessage] marks a message as processed exactly when it
    sends requests: a call that sends nothing (other channel, message
    already processed, no checkout, nothing parsed) leaves
    [processedMessages] as it was, and a call that sends adds the message
    id, which was not in the set, and sends one request for each parsed
    record. *)
Theorem processMessage_marks_when_sends channel now processed message :
  (snd (processMessage channel now processed message) = [] ->
   fst (processMessage channel now processed message) = processed) /\
  (snd (processMessage channel now processed message) <> [] ->
   fst (processMessage channel now processed message)
     = (processed ++ [message_id message])%list /\
   ~ In (message_id message) processed /\
   channelId message = channel /\
   isSuccessfulCheckout (snd (messageInput message)) (messageText message)
     = true /\
   List.length (snd (processMessage channel now processed message))
     = List.length (parseWebhookMessage (snd (messageInput message))
                      (messageText message))).
Proof.
  unfold processMessage.
  destruct (String.eqb_spec (channelId message) channel) as [Hc|Hc];
    cbn [negb]; [|split; [reflexivity|intros H; now contradiction H]].
  destruct (setHas processed (message_id message)) eqn:Hp;
    [split; [reflexivity|intros H; now contradiction H]|].
  destruct (isSuccessfulCheckout (snd (messageInput message))
              (messageText message)) eqn:Hs; cbn [negb];
    [|split; [reflexivity|intros H; now contradiction H]].
  destruct (parseWebhookMessage (snd (messageInput message))
              (messageText message)) as [|r rs] eqn:Hr;
    [split; [reflexivity|intros H; now contradiction H]|].
  cbn [fst snd]. split; [discriminate|]. intros _.
  unfold setAdd. rewrite Hp. apply setHas_false in Hp.
  repeat split; try assumption.
  now rewrite length_payloadsFrom.
Qed.

Lemma processMessage_marks_when_sends_witness :
  fst (processMessage "chan" "2024-01-01T00:00:00.000Z" ["1"]
         {| message_id := "2"; channelId := "chan"; content := None;
            embeds := [ {| title := Some "Successful Checkout";
                           description := None;
                           fields := Some [field "Site" "Shop";
                                           field "Product" "Shoe"];
                           author := None |} ];
            createdAt := None |})
  = ["1"; "2"].
Proof.
  refine (proj1 (proj2 (processMessage_marks_when_sends _ _ _ _) _)).
  vm_compute. discriminate.
Defined.

Lemma processMessage_cases channel now processed message :
  processMessage channel now processed message = (processed, []) \/
  (~ In (message_id message) processed /\
   exists r rs,
     parseWebhookMessage (snd (messageInput message)) (messageText message)
       = r :: rs /\
     processMessage channel now processed message
       = ((processed ++ [message_id message])%list,
          payloadsFrom 0 (List.length (r :: rs)) (message_id message)
            (messageText message) (orElse (createdAt message) now)
            (r :: rs))).
Proof.
  unfold processMessage.
  destruct (negb (String.eqb (channelId message) channel)); [now left|].
  destruct (setHas processed (message_id message)) eqn:Hp; [now left|].
  destruct (negb (isSuccessfulCheckout (snd (messageInput message))
                    (messageText message))); [now left|].
  destruct (parseWebhookMessage (snd (messageInput message))
              (messageText message)) as [|r rs]; [now left|].
  right. unfold setAdd. rewrite Hp. apply setHas_false in Hp.
  split; [assumption|]. now exists r, rs.
Qed.

Lemma processMessage_grows channel now processed message x :
  In x processed -> In x (fst (processMessage channel now processed message)).
Proof.
  intros H.
  destruct (processMessage_cases channel now processed message)
    as [->|(_ & r & rs & _ & ->)]; cbn [fst]; [assumption|].
  apply in_or_app. now left.
Qed.

Lemma session_grows channel events acc x :
  In x (fst acc) -> In x (fst (fold_left (session channel) events acc)).
Proof.
  revert acc. induction events as [|e events IH]; intros acc H; simpl;
    [assumption|].
  apply IH. unfold session. cbn [fst]. now apply processMessage_grows.
Qed.

(** X16. Within a session a message id sends once: after a call that has
    sent requests for a message, and whatever messages are handled next, a
    message with the same id (an edit, which reaches [processMessage]
    through [messageUpdate]) sends nothing and changes nothing. *)
Theorem message_sends_once channel now now' processed message events
    message' sent :
  snd (processMessage channel now processed message) <> [] ->
  message_id message' = message_id message ->
  processMessage channel now'
    (fst (fold_left (session channel) events
            (fst (processMessage channel now processed message), sent)))
    message'
  = (fst (fold_left (session channel) events
            (fst (processMessage channel now processed message), sent)),
     []).
Proof.
  intros Hs Hid.
  set (st2 := fst (fold_left (session channel) events
                     (fst (processMessage channel now processed message),
                      sent))).
  assert (Hin : In (message_id message') st2).
  { apply session_grows. cbn [fst]. rewrite Hid.
    destruct (processMessage_cases channel now processed message)
      as [E|(_ & r & rs & _ & ->)].
    - rewrite E in Hs. now contradiction Hs.
    - cbn [fst]. apply in_or_app. right. now left. }
  clearbody st2. apply setHas_In in Hin. unfold processMessage. rewrite Hin.
  now destruct (negb (String.eqb (channelId message') channel)).
Qed.

Lemma message_sends_once_witness :
  processMessage "chan" "later"
    (fst (fold_left (session "chan") []
            (fst (processMessage "chan" "now" [] checkoutMessage), [])))
    editedMessage
  = (fst (fold_left (session "chan") []
            (fst (processMessage "chan" "now" [] checkoutMessage), [])),
     []).
Proof.
  apply (message_sends_once "chan" "now" "later" [] checkoutMessage []
           editedMessage []).
  - vm_compute. discriminate.
  - reflexivity.
Defined.

(** ** The ids of the requests *)

Lemma decimal_inj i j : decimal i = decimal j -> i = j.
Proof.
  unfold decimal. intros H.
  apply DecimalNat.Unsigned.to_uint_inj.
  apply (f_equal NilEmpty.uint_of_string) in H.
  rewrite !NilEmpty.usu in H. now injection H.
Qed.

Lemma append_inj_r a x y : a ++ x = a ++ y -> x = y.
Proof.
  induction a as [|c a IH]; simpl; [tauto|].
  intros H. injection H as H. now apply IH.
Qed.

Lemma ids_payloadsFrom i total messageId rawText purchaseDate items :
  map discord_message_id
    (payloadsFrom i total messageId rawText purchaseDate items)
  = if (1 <? total)%nat
    then map (fun j => messageId ++ "_" ++ decimal j)
           (seq i (List.length items))
    else map (fun _ => messageId) items.
Proof.
  revert i. induction items as [|x items IH]; intros i; simpl.
  - now destruct (1 <? total)%nat.
  - rewrite IH. now destruct (1 <? total)%nat.
Qed.

Lemma NoDup_numbered_ids messageId i n :
  NoDup (map (fun j => messageId ++ "_" ++ decimal j) (seq i n)).
Proof.
  revert i. induction n as [|n IH]; intros i; simpl; constructor.
  - rewrite in_map_iff. intros [j [E Hj]].
    apply append_inj_r, (append_inj_r "_"), decimal_inj in E.
    apply in_seq in Hj. lia.
  - apply IH.
Qed.

(** X17. The requests of one call carry the message id itself when there
    is one record, and otherwise the message id followed by an underscore
    and the position of the record, counted from 0; no two requests of the
    call carry the same id. *)
Theorem request_ids channel now processed message :
  snd (processMessage channel now processed message) <> [] ->
  map discord_message_id (snd (processMessage channel now processed message))
  = match parseWebhookMessage (snd (messageInput message))
            (messageText message) with
    | [_] => [message_id message]
    | items =>
        map (fun j => message_id message ++ "_" ++ decimal j)
          (seq 0 (List.length items))
    end /\
  NoDup (map discord_message_id
           (snd (processMessage channel now processed message))).
Proof.
  intros Hs.
  destruct (processMessage_cases channel now processed message)
    as [E|(_ & r & rs & Hr & E)].
  - rewrite E in Hs. now contradiction Hs.
  - rewrite E, Hr. cbn [snd]. rewrite ids_payloadsFrom.
    destruct rs as [|r' rs].
    + split; [reflexivity|]. simpl. repeat constructor. simpl. tauto.
    + change (1 <? List.length (r :: r' :: rs))%nat with true. cbv iota.
      split; [reflexivity|apply NoDup_numbered_ids].
Qed.

Lemma request_ids_witness :
  map discord_message_id (snd (processMessage "chan" "now" [] checkoutMessage))
  = ["7_0"; "7_1"].
Proof.
  refine (proj1 (request_ids "chan" "now" [] checkoutMessage _)).
  vm_compute. discriminate.
Defined.

Lemma plainId_tail c a : plainId (String c a) -> plainId a.
Proof.
  intros H x y E. apply (H (String c x) y). simpl. now rewrite E.
Qed.

Lemma plain_prefix_inj a a' x y :
  plainId a -> plainId a' -> a ++ "_" ++ x = a' ++ "_" ++ y -> a = a'.
Proof.
  revert a'. induction a as [|c a IH]; intros a' Ha Ha' E.
  - destruct a' as [|c' a']; [reflexivity|].
    simpl in E. injection E as <- _. exfalso. now apply (Ha' "" a').
  - destruct a' as [|c' a'].
    + simpl in E. injection E as -> _. exfalso. now apply (Ha "" a).
    + simpl in E. injection E as -> E. f_equal.
      apply IH; [now apply plainId_tail in Ha|now apply plainId_tail in Ha'|].
      exact E.
Qed.

Lemma fromMessage_inj a a' id :
  plainId a -> plainId a' -> fromMessage a id -> fromMessage a' id -> a = a'.
Proof.
  intros Ha Ha' [->|[i ->]] [E|[j E]].
  - now symmetry.
  - exfalso. now apply (Ha a' (decimal j)).
  - exfalso. symmetry in E. now apply (Ha' a (decimal i)).
  - now apply (plain_prefix_inj a a' (decimal i) (decimal j)).
Qed.

Lemma processMessage_ids_from channel now processed message id :
  In id (map discord_message_id
           (snd (processMessage channel now processed message))) ->
  fromMessage (message_id message) id.
Proof.
  destruct (processMessage_cases channel now processed message)
    as [->|(_ & r & rs & _ & ->)]; cbn [snd]; [intros []|].
  rewrite ids_payloadsFrom.
  destruct (1 <? List.length (r :: rs))%nat.
  - rewrite in_map_iff. intros [j [<- _]]. right. now exists j.
  - rewrite in_map_iff. intros [_ [<- _]]. now left.
Qed.

Lemma session_ids_unique channel events acc :
  Forall (fun e => plainId (message_id (snd e))) events ->
  Forall plainId (fst acc) ->
  (forall id, In id (map discord_message_id (snd acc)) ->
              exists a, In a (fst acc) /\ fromMessage a id) ->
  NoDup (map discord_message_id (snd acc)) ->
  NoDup (map discord_message_id
           (snd (fold_left (session channel) events acc))).
Proof.
  intros Hev. revert acc.
  induction Hev as [|[now m] events Hm _ IH]; intros acc Hplain Hfrom Hnd;
    [assumption|].
  cbn [fold_left]. cbn [snd] in Hm.
  pose proof (processMessage_ids_from channel now (fst acc) m) as Hnew.
  apply IH; unfold session; cbn [fst snd].
  - destruct (processMessage_cases channel now (fst acc) m)
      as [->|(_ & r & rs & _ & ->)]; cbn [fst]; [assumption|].
    apply Forall_app. split; [assumption|now constructor].
  - intros id. rewrite map_app, in_app_iff. intros [H|H].
    + destruct (Hfrom id H) as [a [Ha Hf]]. exists a. split; [|assumption].
      now apply processMessage_grows.
    + exists (message_id m). split; [|now apply Hnew].
      destruct (processMessage_cases channel now (fst acc) m)
        as [E|(_ & r & rs & _ & ->)].
      * rewrite E in H. contradiction.
      * cbn [fst]. apply in_or_app. right. now left.
  - rewrite map_app.
    destruct (processMessage_cases channel now (fst acc) m)
      as [E|(Hnotin & r & rs & Hr & E)].
    + rewrite E. cbn [snd map]. now rewrite app_nil_r.
    + apply NoDup_app; [assumption| |].
      * rewrite E. cbn [snd]. rewrite ids_payloadsFrom.
        destruct rs as [|r' rs].
        -- simpl. repeat constructor. simpl. tauto.
        -- change (1 <? List.length (r :: r' :: rs))%nat with true.
           cbv iota. apply NoDup_numbered_ids.
      * intros id Hold Hin. apply Hnew in Hin.
        destruct (Hfrom id Hold) as [a [Ha Hf]].
        assert (Hpa : plainId a).
        { rewrite Forall_forall in Hplain. now apply Hplain. }
        apply Hnotin.
        now rewrite <- (fromMessage_inj a (message_id m) id Hpa Hm Hf Hin).
Qed.

(** X18. Over a session that starts with no message processed, no two
    requests carry the same [discord_message_id], whatever messages come
    and in whatever order, edits included, as long as no message id holds
    an underscore (the ids of Discord are digits). *)
Theorem session_request_ids_unique channel events :
  Forall (fun e => plainId (message_id (snd e))) events ->
  NoDup (map discord_message_id
           (snd (fold_left (session channel) events ([], [])))).
Proof.
  intros H. apply session_ids_unique; cbn [fst snd map].
  - assumption.
  - constructor.
  - intros id [].
  - constructor.
Qed.

Lemma session_request_ids_unique_witness :
  NoDup (map discord_message_id
           (snd (fold_left (session "chan")
                   [("now", checkoutMessage); ("later", editedMessage)]
                   ([], [])))).
Proof.
  apply session_request_ids_unique.
  assert (H : plainId "7").
  { intros a b E. destruct a as [|c a]; [inversion E|].
    simpl in E. injection E as _ E. destruct a; discriminate E. }
  repeat constructor; exact H.
Defined.

(** ** What the listener hands to the parser *)

Lemma last_cons {A} (x d : A) l : last (x :: l) d = last l x.
Proof.
  revert x d. induction l as [|y l IH]; intros x d; [reflexivity|].
  change (last (x :: y :: l) d) with (last (y :: l) d).
  now rewrite !IH.
Qed.

(** X19. The raw text that [processMessage] hands to the parser holds the
    content of the message and then, for every embed in order, its title,
    description, author name and fields (name and value on two lines), the
    empty ones left out; the embed it hands over is the last embed of the
    message, or none when the message has none. *)
Theorem message_input message :
  messageInput message =
  ((pushed (content message) ++ flat_map embedText (embeds message))%list,
   last (map (fun e => Some (simplifyEmbed e)) (embeds message)) None).
Proof.
  unfold messageInput.
  generalize (pushed (content message)) (@None Embed).
  induction (embeds message) as [|e es IH]; intros parts e0.
  - simpl. now rewrite app_nil_r.
  - cbn [fold_left]. unfold embedStep at 2. cbn [fst snd].
    rewrite IH. cbn [flat_map map]. rewrite <- app_assoc. f_equal.
    now rewrite last_cons.
Qed.

(** * Spoiler tags around a price and around a quantity

    (of the parser again) *)

Lemma trim_bar u : exists u', trim (String "|" u) = String "|" u'.
Proof.
  unfold trim. cbn [trimStart]. change (isSpace "|") with false. cbv iota.
  cbn [trimEnd]. change (isSpace "|") with false.
  destruct (trimEnd u); eauto.
Qed.

(** X20. Spoiler tags are stripped from a price but not from a quantity:
    a price between two pairs of bars is read as the price itself, while a
    quantity text that starts with a bar is never read and gives the
    default 1. *)
Theorem spoiler_price_and_quantity :
  (forall x, x <> "" -> (forall y, y <> "" -> x <> "||" ++ y ++ "||") ->
             parsePrice ("||" ++ x ++ "||") = parsePrice x) /\
  (forall s, parseQuantity ("||" ++ s) = Dec 1 0).
Proof.
  split.
  - intros x Hx Hplain. unfold parsePrice, cleanPrice.
    now rewrite stripSpoilerTags_wrapped, stripSpoilerTags_plain.
  - intros s. unfold parseQuantity, cleanQuantity.
    rewrite replaceAll_Chr.
    change (keepChars (fun c => negb (ci "x" c)) ("||" ++ s))
      with (String "|" (String "|"
              (keepChars (fun c => negb (ci "x" c)) s))).
    unfold replaceAll.
    rewrite scan_nomatch by reflexivity.
    cbn [app string_of_list_ascii].
    destruct (trim_bar
                (string_of_list_ascii
                   (scan qtyPattern
                      (fun cs => list_ascii_of_string (remove cs))
                      (fun c => [c]) (Some "|"%char)
                      (String "|"
                         (keepChars (fun c => negb (ci "x" c)) s)) 0)))
      as [u' ->].
    reflexivity.
Qed.

Lemma spoiler_price_and_quantity_witness :
  parsePrice ("||" ++ "$12.00" ++ "||") = parsePrice "$12.00" /\
  parseQuantity ("||" ++ "2||") = Dec 1 0.
Proof.
  split.
  - apply (proj1 spoiler_price_and_quantity); [discriminate|].
    intros y _ E. inversion E.
  - apply (proj2 spoiler_price_and_quantity).
Defined.
